(** * RG_Matrix: the delta-encoded matrix of src/graph/rg_matrix/rg_matrix.c

    A shallow embedding of the functions of rg_matrix.c.  An [RG_Matrix] is a
    base GraphBLAS matrix M with two overlays, delta-plus DP and delta-minus
    DM, three flags and an optional transposed sibling.  The GraphBLAS
    library itself is not part of the sources; the functions of rg_matrix.c
    are written against its interface, which is the class [GraphBLAS] below,
    and a small reference engine over finite maps instantiates it. *)

From Stdlib Require Import ZArith Lia Bool.
From stdpp Require Import base option gmap fin_map_dom.

Local Open Scope Z_scope.

(** ** Scalars of the GraphBLAS interface *)

(** [GrB_Index] and [uint64_t] are unsigned 64-bit integers: a [Z] taken
    modulo 2^64 where the C code computes with it. *)
Definition GrB_Index : Type := Z.
Definition uint64_t : Type := Z.

Definition UINT64_MOD : Z := 2 ^ 64.

Definition wrap64 (z : Z) : Z := z mod UINT64_MOD.

(** The return codes of GraphBLAS.  rg_matrix.c names only [GrB_SUCCESS];
    the other codes are what the engine hands back and what the functions
    below pass on to their caller. *)
Inductive GrB_Info : Type :=
| GrB_SUCCESS
| GrB_NO_VALUE
| GrB_INVALID_INDEX
| GrB_INVALID_VALUE
| GrB_INDEX_OUT_OF_BOUNDS
| GrB_DIMENSION_MISMATCH
| GrB_OUT_OF_MEMORY.

#[global] Instance GrB_Info_eq_dec : EqDecision GrB_Info.
Proof. solve_decision. Defined.

Definition is_success (info : GrB_Info) : bool := bool_decide (info = GrB_SUCCESS).

Inductive GrB_Type : Type := GrB_BOOL | GrB_UINT64.

(** ** Outcome of a call

    A call runs to its return ([Done]), stops at an [ASSERT] whose condition
    is false ([AssertFailed]), or dereferences a NULL [RG_Matrix]
    ([Fault]). *)
Inductive outcome (A : Type) : Type :=
| Done (a : A)
| AssertFailed
| Fault.

Arguments Done {A} a.
Arguments AssertFailed {A}.
Arguments Fault {A}.

Definition obind {A B : Type} (k : A -> outcome B) (o : outcome A) : outcome B :=
  match o with
  | Done a => k a
  | AssertFailed => AssertFailed
  | Fault => Fault
  end.

#[global] Instance outcome_bind : MBind outcome := @obind.
#[global] Instance outcome_ret : MRet outcome := @Done.

(** ** The GraphBLAS interface used by rg_matrix.c

    An output parameter ([*nvals], [*x]) is passed in with its old content
    and comes back next to the return code; a matrix modified in place comes
    back as the new matrix.  [Mask], [accum] and [desc] are pointers that may
    be NULL, hence options; an index array is a list, passed with its
    count as in C. *)
Class GraphBLAS : Type := {
  GrB_Matrix : Type;
  GrB_BinaryOp : Type;
  GrB_Descriptor : Type;
  GrB_Matrix_new : GrB_Type -> GrB_Index -> GrB_Index -> GrB_Matrix;
  GrB_Matrix_nvals : GrB_Index -> GrB_Matrix -> GrB_Info * GrB_Index;
  GrB_Matrix_resize : GrB_Matrix -> GrB_Index -> GrB_Index -> GrB_Info * GrB_Matrix;
  GrB_Matrix_extractElement_BOOL :
    bool -> GrB_Matrix -> GrB_Index -> GrB_Index -> GrB_Info * bool;
  GrB_Matrix_extractElement_UINT64 :
    uint64_t -> GrB_Matrix -> GrB_Index -> GrB_Index -> GrB_Info * uint64_t;
  GxB_Matrix_subassign_UINT64 :
    GrB_Matrix -> option GrB_Matrix -> option GrB_BinaryOp -> uint64_t ->
    list GrB_Index -> GrB_Index -> list GrB_Index -> GrB_Index ->
    option GrB_Descriptor -> GrB_Info * GrB_Matrix
}.

(** ** The delta matrix *)

Section RG.
Context {G : GraphBLAS}.

(** struct _RG_Matrix.  [transposed] is a pointer to the sibling that holds
    the transpose; NULL is [None].  The sibling belongs to this matrix alone,
    so it is stored in place.  The mutex takes no part in the sequential
    behaviour and is left out. *)
#[warnings="-register-all"] Inductive RG_Matrix : Type := Build_RG_Matrix {
  dirty : bool;
  multi_edge : bool;
  maintain_transpose : bool;
  matrix : GrB_Matrix;
  delta_plus : GrB_Matrix;
  delta_minus : GrB_Matrix;
  transposed : option RG_Matrix
}.

(** The accessor macros RG_MATRIX_MATRIX, RG_MATRIX_DELTA_PLUS and
    RG_MATRIX_DELTA_MINUS of rg_matrix.h. *)
Definition RG_MATRIX_MATRIX (C : RG_Matrix) : GrB_Matrix := matrix C.
Definition RG_MATRIX_DELTA_PLUS (C : RG_Matrix) : GrB_Matrix := delta_plus C.
Definition RG_MATRIX_DELTA_MINUS (C : RG_Matrix) : GrB_Matrix := delta_minus C.

(** The ASSERT macro comes from RG.h, which is not among the sources.  It is
    taken as a parameter of the build: with [RG_DEBUG] a false condition
    stops the call, without it the macro expands to nothing. *)
Variable RG_DEBUG : bool.

Definition ASSERT (c : bool) : outcome unit :=
  if c then Done tt else if RG_DEBUG then AssertFailed else Done tt.

(** A call [f(C->transposed, ...)] whose argument is NULL: the callee's
    [ASSERT(C)] stops it, and a build without assertions reads a field
    through the NULL pointer. *)
Definition null_call {A : Type} : outcome A :=
  if RG_DEBUG then AssertFailed else Fault.

(** The functions below take a matrix that is not NULL, so that their
    opening [ASSERT(C)] holds; the NULL case arises only at the recursive
    calls on [C->transposed] and is [null_call] there. *)

Definition RG_Matrix_setDirty (C : RG_Matrix) : RG_Matrix :=
  Build_RG_Matrix true (multi_edge C) (maintain_transpose C)
    (matrix C) (delta_plus C) (delta_minus C) (transposed C).

Definition RG_Matrix_getTranspose (C : RG_Matrix) : option RG_Matrix :=
  transposed C.


Definition RG_Matrix_getDeltaPlus (C : RG_Matrix) : GrB_Matrix :=
  RG_MATRIX_DELTA_PLUS C.

Definition RG_Matrix_isDirty (C : RG_Matrix) : bool :=
  dirty C.

Fixpoint RG_Matrix_setMultiEdge (C : RG_Matrix) (multi_edge : bool)
  : outcome RG_Matrix :=
  match C with
  | Build_RG_Matrix d me mt m dp dm tr =>
      tr' ← (if mt then
                 match tr with
                 | Some T => T' ← RG_Matrix_setMultiEdge T multi_edge;
                             Done (Some T')
                 | None => null_call
                 end
               else Done tr);
      Done (Build_RG_Matrix d multi_edge mt m dp dm tr')
  end.

Definition RG_Matrix_getMultiEdge (C : RG_Matrix) : bool :=
  multi_edge C.

Definition RG_Matrix_nvals (A : RG_Matrix) : outcome (GrB_Info * GrB_Index) :=
  let m_nvals := 0 in
  let dp_nvals := 0 in
  let dm_nvals := 0 in
  let m := RG_MATRIX_MATRIX A in
  let dp := RG_MATRIX_DELTA_PLUS A in
  let dm := RG_MATRIX_DELTA_MINUS A in
  let '(info, m_nvals) := GrB_Matrix_nvals m_nvals m in
  ASSERT (is_success info) ;;
  let '(info, dp_nvals) := GrB_Matrix_nvals dp_nvals dp in
  ASSERT (is_success info) ;;
  let '(info, dm_nvals) := GrB_Matrix_nvals dm_nvals dm in
  ASSERT (is_success info) ;;
  Done (info, wrap64 (wrap64 (m_nvals + dp_nvals) - dm_nvals)).

Fixpoint RG_Matrix_resize (C : RG_Matrix) (nrows_new ncols_new : GrB_Index)
  : outcome (GrB_Info * RG_Matrix) :=
  match C with
  | Build_RG_Matrix d me mt m delta_plus delta_minus tr =>
      tr' ← (if mt then
                 match tr with
                 | Some T =>
                     '(info, T') ← RG_Matrix_resize T nrows_new ncols_new;
                     ASSERT (is_success info) ;;
                     Done (Some T')
                 | None => null_call
                 end
               else Done tr);
      let '(info, m) := GrB_Matrix_resize m nrows_new ncols_new in
      ASSERT (is_success info) ;;
      let '(info, delta_plus) := GrB_Matrix_resize delta_plus nrows_new ncols_new in
      ASSERT (is_success info) ;;
      let '(info, delta_minus) := GrB_Matrix_resize delta_minus nrows_new ncols_new in
      ASSERT (is_success info) ;;
      Done (info, Build_RG_Matrix d me mt m delta_plus delta_minus tr')
  end.

Definition RG_Matrix_extractElement_BOOL
  (x : bool) (A : RG_Matrix) (i j : GrB_Index) : GrB_Info * bool :=
  let m := RG_MATRIX_MATRIX A in
  let dp := RG_MATRIX_DELTA_PLUS A in
  let dm := RG_MATRIX_DELTA_MINUS A in
  let '(info, x) := GrB_Matrix_extractElement_BOOL x dp i j in
  if is_success info then (info, x)
  else
    let '(info, x) := GrB_Matrix_extractElement_BOOL x dm i j in
    if negb (is_success info) then
      let '(info, x) := GrB_Matrix_extractElement_BOOL x m i j in
      (info, x)
    else (info, x).

Definition RG_Matrix_extractElement_UINT64
  (x : uint64_t) (A : RG_Matrix) (i j : GrB_Index) : GrB_Info * uint64_t :=
  let m := RG_MATRIX_MATRIX A in
  let dp := RG_MATRIX_DELTA_PLUS A in
  let dm := RG_MATRIX_DELTA_MINUS A in
  let '(info, x) := GrB_Matrix_extractElement_UINT64 x dp i j in
  if is_success info then (info, x)
  else
    let '(info, x) := GrB_Matrix_extractElement_UINT64 x dm i j in
    if negb (is_success info) then
      let '(info, x) := GrB_Matrix_extractElement_UINT64 x m i j in
      (info, x)
    else (info, x).

Fixpoint RG_Matrix_subassign_UINT64
  (C : RG_Matrix) (Mask : option GrB_Matrix) (accum : option GrB_BinaryOp)
  (x : uint64_t) (I : list GrB_Index) (ni : GrB_Index)
  (J : list GrB_Index) (nj : GrB_Index) (desc : option GrB_Descriptor)
  : outcome (GrB_Info * RG_Matrix) :=
  ASSERT false ;;
  match C with
  | Build_RG_Matrix d me mt m dp dm tr =>
      tr' ← (if mt then
                 match tr with
                 | Some T =>
                     '(info, T') ←
                        RG_Matrix_subassign_UINT64 T Mask accum x J nj I ni desc;
                     ASSERT (is_success info) ;;
                     Done (Some T')
                 | None => null_call
                 end
               else Done tr);
      let '(info, delta_plus) :=
        GxB_Matrix_subassign_UINT64 dp Mask accum x I ni J nj desc in
      let C' := Build_RG_Matrix d me mt m delta_plus dm tr' in
      if is_success info then Done (info, RG_Matrix_setDirty C')
      else Done (info, C')
  end.

(** Modelled from the spec: RG_Matrix_new, the creation of a delta matrix,
    which is not in rg_matrix.c.  "Allocates empty M, DP, DM (all dimension
    rows x cols); if maintainTranspose, recursively creates a sibling Delta
    Matrix of swapped dimensions with transpose maintenance disabled on the
    sibling and links it as the transpose."  DM is the presence mask, a
    boolean matrix.  The spec names no initial flags: a matrix that has seen
    no mutation is not dirty, and multi-edge is off until it is set. *)
Definition RG_Matrix_new
  (type : GrB_Type) (nrows ncols : GrB_Index) (maintain_transpose : bool)
  : RG_Matrix :=
  Build_RG_Matrix false false maintain_transpose
    (GrB_Matrix_new type nrows ncols)
    (GrB_Matrix_new type nrows ncols)
    (GrB_Matrix_new GrB_BOOL nrows ncols)
    (if maintain_transpose then
       Some (Build_RG_Matrix false false false
               (GrB_Matrix_new type ncols nrows)
               (GrB_Matrix_new type ncols nrows)
               (GrB_Matrix_new GrB_BOOL ncols nrows)
               None)
     else None).

(** The link discipline that creation sets up: [transposed] points to a
    sibling exactly when [maintain_transpose] is set, and so on down the
    chain of siblings. *)
Fixpoint linked (C : RG_Matrix) : bool :=
  match C with
  | Build_RG_Matrix _ _ mt _ _ _ tr =>
      match tr with
      | Some T => mt && linked T
      | None => negb mt
      end
  end.

(** The mutating entry points of rg_matrix.c, as the steps of a run. *)
Inductive RG_op : Type :=
| Op_setDirty
| Op_setMultiEdge (multi_edge : bool)
| Op_resize (nrows_new ncols_new : GrB_Index)
| Op_subassign (Mask : option GrB_Matrix) (accum : option GrB_BinaryOp)
    (x : uint64_t) (I : list GrB_Index) (ni : GrB_Index)
    (J : list GrB_Index) (nj : GrB_Index) (desc : option GrB_Descriptor).

Definition run_op (op : RG_op) (C : RG_Matrix) : outcome RG_Matrix :=
  match op with
  | Op_setDirty => Done (RG_Matrix_setDirty C)
  | Op_setMultiEdge b => RG_Matrix_setMultiEdge C b
  | Op_resize r c => '(_, C') ← RG_Matrix_resize C r c; Done C'
  | Op_subassign Mask accum x rows ni cols nj desc =>
      '(_, C') ← RG_Matrix_subassign_UINT64 C Mask accum x rows ni cols nj desc;
      Done C'
  end.

Fixpoint run_ops (ops : list RG_op) (C : RG_Matrix) : outcome RG_Matrix :=
  match ops with
  | [] => Done C
  | op :: ops' => C' ← run_op op C; run_ops ops' C'
  end.

End RG.

Arguments RG_Matrix G : clear implicits.
Arguments RG_op G : clear implicits.

(** ** A reference engine

    Modelled from the spec: the sparse-matrix engine, which the spec treats
    as an external collaborator with the capabilities create(rows, cols,
    type), resize(rows, cols), extractElement(i, j) -> Optional<Value>,
    assign(i, j, value) and countEntries().  A matrix is its type, its
    dimensions and a finite map from coordinates to values; a boolean is
    stored as 0 or 1. *)
Record GB_Matrix : Type := Build_GB_Matrix {
  gb_type : GrB_Type;
  gb_nrows : GrB_Index;
  gb_ncols : GrB_Index;
  gb_entries : gmap (Z * Z) Z
}.

Definition gb_cast (t : GrB_Type) (x : Z) : Z :=
  match t with
  | GrB_BOOL => if x =? 0 then 0 else 1
  | GrB_UINT64 => wrap64 x
  end.

Definition gb_new (t : GrB_Type) (nrows ncols : GrB_Index) : GB_Matrix :=
  Build_GB_Matrix t nrows ncols ∅.

Definition gb_nvals (nvals : GrB_Index) (A : GB_Matrix) : GrB_Info * GrB_Index :=
  (GrB_SUCCESS, Z.of_nat (size (gb_entries A))).

(** Resizing keeps the entries that lie inside the new dimensions. *)
Definition gb_inside (nrows ncols : GrB_Index) (e : Z * Z * Z) : Prop :=
  e.1.1 < nrows ∧ e.1.2 < ncols.

#[global] Instance gb_inside_dec nrows ncols e : Decision (gb_inside nrows ncols e).
Proof. unfold gb_inside. apply _. Defined.

Definition gb_resize (A : GB_Matrix) (nrows_new ncols_new : GrB_Index)
  : GrB_Info * GB_Matrix :=
  (GrB_SUCCESS,
   Build_GB_Matrix (gb_type A) nrows_new ncols_new
     (filter (gb_inside nrows_new ncols_new) (gb_entries A))).

Definition gb_in_range (A : GB_Matrix) (i j : GrB_Index) : bool :=
  (0 <=? i) && (i <? gb_nrows A) && (0 <=? j) && (j <? gb_ncols A).

Definition gb_extractElement_BOOL
  (x : bool) (A : GB_Matrix) (i j : GrB_Index) : GrB_Info * bool :=
  if gb_in_range A i j then
    match gb_entries A !! (i, j) with
    | Some v => (GrB_SUCCESS, negb (v =? 0))
    | None => (GrB_NO_VALUE, x)
    end
  else (GrB_INVALID_INDEX, x).

Definition gb_extractElement_UINT64
  (x : uint64_t) (A : GB_Matrix) (i j : GrB_Index) : GrB_Info * uint64_t :=
  if gb_in_range A i j then
    match gb_entries A !! (i, j) with
    | Some v => (GrB_SUCCESS, v)
    | None => (GrB_NO_VALUE, x)
    end
  else (GrB_INVALID_INDEX, x).

(** The descriptor settings that bear on an assignment. *)
Record GB_Descriptor : Type := Build_GB_Descriptor {
  GrB_OUTP_REPLACE : bool;
  GrB_MASK_COMP : bool
}.

Definition gb_mask_allows
  (Mask : option GB_Matrix) (desc : option GB_Descriptor) (a b : Z) : bool :=
  let comp := from_option GrB_MASK_COMP false desc in
  match Mask with
  | None => negb comp
  | Some M =>
      xorb comp
        (match gb_entries M !! (a, b) with
         | Some v => negb (v =? 0)
         | None => false
         end)
  end.

(** The positions of a submatrix: the index in the list, paired with the
    row or column it names. *)
Definition gb_positions (I : list GrB_Index) (ni : GrB_Index) : list (Z * Z) :=
  imap (fun a i => (Z.of_nat a, i)) (take (Z.to_nat ni) I).

Definition gb_assign_at
  (t : GrB_Type) (Mask : option GB_Matrix) (accum : option (Z -> Z -> Z))
  (x : uint64_t) (desc : option GB_Descriptor)
  (e : gmap (Z * Z) Z) (p : (Z * Z) * (Z * Z)) : gmap (Z * Z) Z :=
  let '((a, i), (b, j)) := p in
  if gb_mask_allows Mask desc a b then
    let v := match accum, e !! (i, j) with
             | Some op, Some c => op c x
             | _, _ => x
             end in
    <[(i, j) := gb_cast t v]> e
  else if from_option GrB_OUTP_REPLACE false desc then delete (i, j) e
  else e.

Definition gb_subassign_UINT64
  (C : GB_Matrix) (Mask : option GB_Matrix) (accum : option (Z -> Z -> Z))
  (x : uint64_t) (I : list GrB_Index) (ni : GrB_Index)
  (J : list GrB_Index) (nj : GrB_Index) (desc : option GB_Descriptor)
  : GrB_Info * GB_Matrix :=
  let rows := gb_positions I ni in
  let cols := gb_positions J nj in
  if negb (forallb (fun p => (0 <=? p.2) && (p.2 <? gb_nrows C)) rows
           && forallb (fun p => (0 <=? p.2) && (p.2 <? gb_ncols C)) cols)
  then (GrB_INDEX_OUT_OF_BOUNDS, C)
  else if negb (from_option
                  (fun M => (gb_nrows M =? ni) && (gb_ncols M =? nj)) true Mask)
  then (GrB_DIMENSION_MISMATCH, C)
  else
    (GrB_SUCCESS,
     Build_GB_Matrix (gb_type C) (gb_nrows C) (gb_ncols C)
       (foldl (gb_assign_at (gb_type C) Mask accum x desc) (gb_entries C)
          (list_prod rows cols))).

Definition ref_engine : GraphBLAS := {|
  GrB_Matrix := GB_Matrix;
  GrB_BinaryOp := Z -> Z -> Z;
  GrB_Descriptor := GB_Descriptor;
  GrB_Matrix_new := gb_new;
  GrB_Matrix_nvals := gb_nvals;
  GrB_Matrix_resize := gb_resize;
  GrB_Matrix_extractElement_BOOL := gb_extractElement_BOOL;
  GrB_Matrix_extractElement_UINT64 := gb_extractElement_UINT64;
  GxB_Matrix_subassign_UINT64 := gb_subassign_UINT64
|}.

(** ** The logical content of a delta matrix over the reference engine

    Modelled from the spec: "for coordinate (i,j), the value is DP[i,j] if
    present; else absent if DM[i,j] is present; else M[i,j] if present; else
    absent." *)
Definition logical_lookup (A : RG_Matrix ref_engine) (ij : Z * Z) : option Z :=
  match gb_entries (delta_plus A) !! ij with
  | Some v => Some v
  | None =>
      match gb_entries (delta_minus A) !! ij with
      | Some _ => None
      | None => gb_entries (matrix A) !! ij
      end
  end.

Definition logical_content (A : RG_Matrix ref_engine) : gmap (Z * Z) Z :=
  gb_entries (delta_plus A) ∪ (gb_entries (matrix A) ∖ gb_entries (delta_minus A)).

Definition count (m : GB_Matrix) : Z := Z.of_nat (size (gb_entries m)).

(** The invariants of the data model, after the four states of a
    coordinate: absent, present in the base (in M alone), pending insertion
    (in DP alone) and pending deletion (in M and in DM).  So a pending
    deletion targets a coordinate of the base and a pending insertion a
    coordinate outside it; and the engine can hold the entries, which it
    counts in 64 bits. *)
Definition delta_ok (A : RG_Matrix ref_engine) : Prop :=
  dom (gb_entries (delta_minus A)) ⊆ dom (gb_entries (matrix A))
  ∧ dom (gb_entries (delta_plus A)) ## dom (gb_entries (matrix A))
  ∧ count (matrix A) + count (delta_plus A) < UINT64_MOD.




(** ** Sample matrices over the reference engine *)

(** A 2 x 2 boolean matrix whose base holds (0,0), with that entry marked in
    delta-minus and nothing pending in delta-plus: the state in which a
    deletion of a committed entry leaves the matrix. *)
Definition pending_delete_matrix : RG_Matrix ref_engine :=
  Build_RG_Matrix (G := ref_engine) true false false
    (Build_GB_Matrix GrB_BOOL 2 2 {[ (0, 0) := 1 ]})
    (gb_new GrB_BOOL 2 2)
    (Build_GB_Matrix GrB_BOOL 2 2 {[ (0, 0) := 1 ]})
    None.

(** A 2 x 3 matrix created with a mirror, which is 3 x 2. *)
Definition mirrored_matrix : RG_Matrix ref_engine :=
  RG_Matrix_new (G := ref_engine) GrB_BOOL 2 3 true.

(** A clean 4 x 4 matrix without a mirror whose base holds (3,3). *)
Definition corner_matrix : RG_Matrix ref_engine :=
  Build_RG_Matrix (G := ref_engine) false false false
    (Build_GB_Matrix GrB_BOOL 4 4 {[ (3, 3) := 1 ]})
    (gb_new GrB_BOOL 4 4)
    (gb_new GrB_BOOL 4 4)
    None.

(** A 2 x 2 matrix with two committed entries, one of them pending
    deletion, and one pending insertion. *)
Definition mixed_matrix : RG_Matrix ref_engine :=
  Build_RG_Matrix (G := ref_engine) true false false
    (Build_GB_Matrix GrB_UINT64 2 2 {[ (0, 0) := 7; (1, 1) := 9 ]})
    (Build_GB_Matrix GrB_UINT64 2 2 {[ (0, 1) := 5 ]})
    (Build_GB_Matrix GrB_BOOL 2 2 {[ (1, 1) := 1 ]})
    None.

(** A matrix of the reference engine is well formed when its entries lie
    inside its dimensions. *)
Definition gb_valid (m : GB_Matrix) : Prop :=
  map_Forall
    (fun (ij : Z * Z) (_ : Z) =>
       (0 <= ij.1 < gb_nrows m) /\ (0 <= ij.2 < gb_ncols m))
    (gb_entries m).

(** The three matrices of a delta matrix hold (i,j) within their bounds. *)
Definition in_bounds (A : RG_Matrix ref_engine) (i j : GrB_Index) : bool :=
  gb_in_range (delta_plus A) i j && gb_in_range (delta_minus A) i j
  && gb_in_range (matrix A) i j.

(** An engine that is out of memory: every call fails with
    GrB_OUT_OF_MEMORY and leaves its arguments as they were.  It is the
    instance at which the error paths of rg_matrix.c are run. *)
Definition oom_engine : GraphBLAS := {|
  GrB_Matrix := unit;
  GrB_BinaryOp := unit;
  GrB_Descriptor := unit;
  GrB_Matrix_new := fun _ _ _ => tt;
  GrB_Matrix_nvals := fun nvals _ => (GrB_OUT_OF_MEMORY, nvals);
  GrB_Matrix_resize := fun A _ _ => (GrB_OUT_OF_MEMORY, A);
  GrB_Matrix_extractElement_BOOL := fun x _ _ _ => (GrB_OUT_OF_MEMORY, x);
  GrB_Matrix_extractElement_UINT64 := fun x _ _ _ => (GrB_OUT_OF_MEMORY, x);
  GxB_Matrix_subassign_UINT64 :=
    fun C _ _ _ _ _ _ _ _ => (GrB_OUT_OF_MEMORY, C)
|}.

(** A matrix over that engine, without a mirror. *)
Definition oom_matrix : RG_Matrix oom_engine :=
  Build_RG_Matrix (G := oom_engine) false false false tt tt tt None.

(** A matrix flagged as maintaining a transpose whose link is NULL. *)
Definition unlinked_matrix : RG_Matrix ref_engine :=
  Build_RG_Matrix (G := ref_engine) false false true
    (gb_new GrB_BOOL 2 2) (gb_new GrB_BOOL 2 2) (gb_new GrB_BOOL 2 2) None.

(** A matrix whose delta-minus marks a coordinate that the base does not
    hold: it breaks the invariant that a deletion targets the base. *)
Definition phantom_delete_matrix : RG_Matrix ref_engine :=
  Build_RG_Matrix (G := ref_engine) true false false
    (gb_new GrB_BOOL 2 2) (gb_new GrB_BOOL 2 2)
    (Build_GB_Matrix GrB_BOOL 2 2 {[ (0, 0) := 1 ]})
    None.

(** ** The value hash join: searching the cached records

    The search functions of src/execution_plan/ops/op_value_hash_join.c.
    [uint] is an unsigned 32-bit integer.  A C array is a list, read at a
    position; a read outside the list is [BadRead].  The two [while] loops
    run on a bound of iterations, and [Unfinished] says that the bound was
    reached. *)

Definition wrap32 (z : Z) : Z := z mod 2 ^ 32.

Inductive bounded (A : Type) : Type :=
| Finished (a : A)
| BadRead
| AssertStop
| Unfinished.

Arguments Finished {A} a.
Arguments BadRead {A}.
Arguments AssertStop {A}.
Arguments Unfinished {A}.

Definition array_get {A : Type} (array : list A) (pos : Z) : option A :=
  if pos <? 0 then None else array !! Z.to_nat pos.

Section ValueHashJoin.

(** Records, scalar values and their comparison come from record.h and
    value.h, which are not among the sources; they are parameters.
    [SIValue_Compare a b p] is the call with third argument [p]: [None] for
    NULL, [Some d] for a pointer to an int that holds [d]; it gives back the
    int returned and what the pointer holds afterwards. *)
Variable RecordT : Type.
Variable SIValue : Type.
Variable Record_Get : RecordT -> Z -> SIValue.
Variable SIValue_Compare : SIValue -> SIValue -> option Z -> Z * option Z.
Variable COMPARED_NULL : Z.
Variable RG_DEBUG : bool.

(** The loop of _binarySearchLeftmost; it hands back [left] and [right]. *)
Fixpoint _binarySearchLeftmost_loop
  (fuel : nat) (array : list RecordT) (join_key_idx : Z) (v : SIValue)
  (left right : Z) : bounded (Z * Z) :=
  if left <? right then
    match fuel with
    | O => Unfinished
    | S fuel' =>
        let pos := wrap32 (right + left) / 2 in
        match array_get array pos with
        | None => BadRead
        | Some r =>
            let x := Record_Get r join_key_idx in
            if (SIValue_Compare x v None).1 <? 0
            then _binarySearchLeftmost_loop fuel' array join_key_idx v
                   (wrap32 (pos + 1)) right
            else _binarySearchLeftmost_loop fuel' array join_key_idx v left pos
        end
    end
  else Finished (left, right).

(** Returns the boolean and the content of [*idx]. *)
Definition _binarySearchLeftmost
  (fuel : nat) (idx : Z) (array : list RecordT) (array_len : Z)
  (join_key_idx : Z) (v : SIValue) : bounded (bool * Z) :=
  match _binarySearchLeftmost_loop fuel array join_key_idx v 0 array_len with
  | Finished p =>
      let left := p.1 in
      let idx := left in
      if left =? array_len then Finished (false, idx)
      else
        match array_get array idx with
        | None => BadRead
        | Some r =>
            let x := Record_Get r join_key_idx in
            let disjointOrNull := 0 in
            let '(c, d) := SIValue_Compare x v (Some disjointOrNull) in
            let disjointOrNull := default disjointOrNull d in
            Finished ((c =? 0) && negb (disjointOrNull =? COMPARED_NULL), idx)
        end
  | BadRead => BadRead
  | AssertStop => AssertStop
  | Unfinished => Unfinished
  end.

(** The loop of _binarySearchRightmost. *)
Fixpoint _binarySearchRightmost_loop
  (fuel : nat) (array : list RecordT) (join_key_idx : Z) (v : SIValue)
  (left right : Z) : bounded (Z * Z) :=
  if left <? right then
    match fuel with
    | O => Unfinished
    | S fuel' =>
        let pos := wrap32 (right + left) / 2 in
        match array_get array pos with
        | None => BadRead
        | Some r =>
            let x := Record_Get r join_key_idx in
            if (SIValue_Compare v x None).1 <? 0
            then _binarySearchRightmost_loop fuel' array join_key_idx v left pos
            else _binarySearchRightmost_loop fuel' array join_key_idx v
                   (wrap32 (pos + 1)) right
        end
    end
  else Finished (left, right).

Definition _binarySearchRightmost
  (fuel : nat) (idx : Z) (array : list RecordT) (array_len : Z)
  (join_key_idx : Z) (v : SIValue) : bounded (bool * Z) :=
  match _binarySearchRightmost_loop fuel array join_key_idx v 0 array_len with
  | Finished p =>
      let right := p.2 in
      Finished (true, wrap32 (right - 1))
  | BadRead => BadRead
  | AssertStop => AssertStop
  | Unfinished => Unfinished
  end.

(** The fields of OpValueHashJoin that the search reads and writes; the
    struct is declared in op_value_hash_join.h, which is not among the
    sources.  [intersect_idx] is a signed index with -1 for "none";
    [number_of_intersections] is an unsigned 32-bit count, like the [uint]
    values it is computed from.  The array of cached records knows its
    length ([array_len]). *)
Record OpValueHashJoin : Type := Build_OpValueHashJoin {
  cached_records : list RecordT;
  join_value_rec_idx : Z;
  intersect_idx : Z;
  number_of_intersections : Z
}.

Definition array_len (array : list RecordT) : Z :=
  wrap32 (Z.of_nat (length array)).

(** Returns the record, NULL being [None], and the operation as the call
    leaves it. *)
Definition _get_intersecting_record (op : OpValueHashJoin)
  : bounded (option RecordT * OpValueHashJoin) :=
  if (intersect_idx op =? -1) || (number_of_intersections op =? 0)
  then Finished (None, op)
  else
    match array_get (cached_records op) (intersect_idx op) with
    | None => BadRead
    | Some cr =>
        Finished
          (Some cr,
           Build_OpValueHashJoin (cached_records op) (join_value_rec_idx op)
             (intersect_idx op + 1)
             (wrap32 (number_of_intersections op - 1)))
    end.

Definition _set_intersection_idx
  (fuel : nat) (op : OpValueHashJoin) (v : SIValue)
  : bounded (bool * OpValueHashJoin) :=
  let op := Build_OpValueHashJoin (cached_records op) (join_value_rec_idx op)
              (-1) 0 in
  let record_count := array_len (cached_records op) in
  let leftmost_idx := 0 in
  let rightmost_idx := 0 in
  match _binarySearchLeftmost fuel leftmost_idx (cached_records op)
          (array_len (cached_records op)) (join_value_rec_idx op) v with
  | Finished (found, leftmost_idx) =>
      if negb found then Finished (false, op)
      else
        let op := Build_OpValueHashJoin (cached_records op)
                    (join_value_rec_idx op) leftmost_idx
                    (number_of_intersections op) in
        match _binarySearchRightmost fuel rightmost_idx
                (drop (Z.to_nat leftmost_idx) (cached_records op))
                (wrap32 (record_count - leftmost_idx))
                (join_value_rec_idx op) v with
        | Finished (found, rightmost_idx) =>
            if negb found && RG_DEBUG then AssertStop
            else
              let rightmost_idx := wrap32 (rightmost_idx + leftmost_idx) in
              let op := Build_OpValueHashJoin (cached_records op)
                          (join_value_rec_idx op) (intersect_idx op)
                          (wrap32 (rightmost_idx - leftmost_idx + 1)) in
              if negb (number_of_intersections op >? 0) && RG_DEBUG
              then AssertStop
              else Finished (true, op)
        | BadRead => BadRead
        | AssertStop => AssertStop
        | Unfinished => Unfinished
        end
  | BadRead => BadRead
  | AssertStop => AssertStop
  | Unfinished => Unfinished
  end.

(** [k] successive calls of _get_intersecting_record, as the loop of
    ValueHashJoinConsume makes them: the records handed out, up to the first
    NULL, and the operation afterwards. *)
Fixpoint drain (k : nat) (op : OpValueHashJoin)
  : bounded (list RecordT * OpValueHashJoin) :=
  match k with
  | O => Finished ([], op)
  | S k' =>
      match _get_intersecting_record op with
      | Finished (Some cr, op') =>
          match drain k' op' with
          | Finished (crs, op'') => Finished (cr :: crs, op'')
          | BadRead => BadRead
          | AssertStop => AssertStop
          | Unfinished => Unfinished
          end
      | Finished (None, op') => Finished ([], op')
      | BadRead => BadRead
      | AssertStop => AssertStop
      | Unfinished => Unfinished
      end
  end.

(** The two tests of the searches, on a record. *)
Definition below (join_key_idx : Z) (v : SIValue) (r : RecordT) : bool :=
  (SIValue_Compare (Record_Get r join_key_idx) v None).1 <? 0.

Definition not_above (join_key_idx : Z) (v : SIValue) (r : RecordT) : bool :=
  negb ((SIValue_Compare v (Record_Get r join_key_idx) None).1 <? 0).

(** The test that ends _binarySearchLeftmost: the record compares equal to
    [v], and the comparison did not involve a null. *)
Definition equal_to (join_key_idx : Z) (v : SIValue) (r : RecordT) : bool :=
  let '(c, d) := SIValue_Compare (Record_Get r join_key_idx) v (Some 0) in
  (c =? 0) && negb (default 0 d =? COMPARED_NULL).

End ValueHashJoin.

(** An array is partitioned by a test when the records that pass it come
    first: what sorting on the join value gives for [below] and for
    [not_above]. *)
Fixpoint partitioned {A : Type} (P : A -> bool) (l : list A) : bool :=
  match l with
  | [] => true
  | x :: l' => if P x then partitioned P l' else forallb (fun y => negb (P y)) l'
  end.

Definition passing {A : Type} (P : A -> bool) (l : list A) : Z :=
  Z.of_nat (length (List.filter P l)).

(** A sample instance: a record is a list of integers, a scalar is an
    integer or null ([None]); two integers compare by their order, and a
    comparison with null reports COMPARED_NULL through the pointer. *)
Definition sample_get (r : list (option Z)) (idx : Z) : option Z :=
  default None (r !! Z.to_nat idx).

Definition sample_COMPARED_NULL : Z := -2.

Definition sample_compare (a b : option Z) (p : option Z) : Z * option Z :=
  match a, b with
  | Some x, Some y =>
      (match x ?= y with Lt => -1 | Eq => 0 | Gt => 1 end,
       (fun _ => 0) <$> p)
  | None, None => (0, (fun _ => sample_COMPARED_NULL) <$> p)
  | None, Some _ => (1, (fun _ => sample_COMPARED_NULL) <$> p)
  | Some _, None => (-1, (fun _ => sample_COMPARED_NULL) <$> p)
  end.

Definition sample_records : list (list (option Z)) :=
  [[Some 1]; [Some 3]; [Some 3]; [Some 5]].

Definition sample_op : OpValueHashJoin (list (option Z)) :=
  Build_OpValueHashJoin (list (option Z)) sample_records 0 (-1) 0.

(** ** Reasoning principles *)

(** Induction along the chain of siblings. *)
Section ChainInduction.
Context {G : GraphBLAS}.
Variable P : RG_Matrix G -> Prop.
Hypothesis P_last : forall d me mt m dp dm,
  P (Build_RG_Matrix d me mt m dp dm None).
Hypothesis P_link : forall d me mt m dp dm T,
  P T -> P (Build_RG_Matrix d me mt m dp dm (Some T)).

Fixpoint RG_Matrix_chain_ind (C : RG_Matrix G) : P C :=
  match C with
  | Build_RG_Matrix d me mt m dp dm tr =>
      match tr with
      | None => P_last d me mt m dp dm
      | Some T => P_link d me mt m dp dm T (RG_Matrix_chain_ind T)
      end
  end.
End ChainInduction.

(** The chain of [maintain_transpose] flags, from a matrix down its
    siblings: no operation of rg_matrix.c changes it. *)
Fixpoint skeleton {G : GraphBLAS} (C : RG_Matrix G) : list bool :=
  match C with
  | Build_RG_Matrix _ _ mt _ _ _ tr =>
      mt :: match tr with
            | Some T => skeleton T
            | None => []
            end
  end.

Ltac unfold_outcome :=
  unfold mbind, outcome_bind, obind, mret, outcome_ret, ASSERT, null_call in *.

(** Case analysis on every scrutinee met while a call is traced. *)
Ltac trace_call :=
  repeat match goal with
    | H : Done _ = Done _ |- _ => injection H as H; subst
    | H : (_, _) = (_, _) |- _ => injection H as ? ?; subst
    | H : AssertFailed = Done _ |- _ => discriminate H
    | H : Fault = Done _ |- _ => discriminate H
    | H : context [match ?x with _ => _ end] |- _ => destruct x eqn:?
    | H : context [if ?x then _ else _] |- _ => destruct x eqn:?
    end.

Section Frames.
Context {G : GraphBLAS}.
Variable RG_DEBUG : bool.

Lemma is_success_true info : is_success info = true -> info = GrB_SUCCESS.
Proof. unfold is_success. intros H. by apply bool_decide_eq_true in H. Qed.

Lemma setMultiEdge_frame (C C' : RG_Matrix G) b :
  RG_Matrix_setMultiEdge RG_DEBUG C b = Done C' ->
  dirty C' = dirty C /\ multi_edge C' = b
  /\ maintain_transpose C' = maintain_transpose C
  /\ matrix C' = matrix C /\ delta_plus C' = delta_plus C
  /\ delta_minus C' = delta_minus C.
Proof.
  destruct C as [d me mt m dp dm tr]. simpl. unfold_outcome.
  intros H. trace_call; simpl; repeat split; auto.
Qed.

Lemma resize_frame (C C' : RG_Matrix G) r c info :
  RG_Matrix_resize RG_DEBUG C r c = Done (info, C') ->
  dirty C' = dirty C /\ multi_edge C' = multi_edge C
  /\ maintain_transpose C' = maintain_transpose C.
Proof.
  destruct C as [d me mt m dp dm tr]. simpl. unfold_outcome.
  intros H. trace_call; simpl; repeat split; auto.
Qed.

Lemma subassign_frame (C C' : RG_Matrix G) Mask accum x rows ni cols nj desc info :
  RG_Matrix_subassign_UINT64 RG_DEBUG C Mask accum x rows ni cols nj desc
    = Done (info, C') ->
  matrix C' = matrix C /\ delta_minus C' = delta_minus C
  /\ multi_edge C' = multi_edge C
  /\ maintain_transpose C' = maintain_transpose C
  /\ delta_plus C'
     = (GxB_Matrix_subassign_UINT64 (delta_plus C) Mask accum x rows ni cols nj desc).2
  /\ dirty C' = (if is_success info then true else dirty C).
Proof.
  destruct C as [d me mt m dp dm tr]. simpl. unfold_outcome.
  intros H. trace_call; simpl; repeat split; auto.
  all: match goal with E : is_success ?i = _ |- context [is_success ?i] => by rewrite E end.
Qed.

End Frames.

(** ** What the operations keep *)

Section Operations.
Context {G : GraphBLAS}.
Variable RG_DEBUG : bool.

Lemma resize_components (C C' : RG_Matrix G) r c info :
  RG_Matrix_resize RG_DEBUG C r c = Done (info, C') ->
  matrix C' = (GrB_Matrix_resize (matrix C) r c).2
  /\ delta_plus C' = (GrB_Matrix_resize (delta_plus C) r c).2
  /\ delta_minus C' = (GrB_Matrix_resize (delta_minus C) r c).2.
Proof.
  destruct C as [d me mt m dp dm tr]. simpl. unfold_outcome.
  intros H. trace_call; simpl;
    repeat match goal with E : GrB_Matrix_resize _ _ _ = _ |- _ => rewrite E end;
    auto.
Qed.

Lemma setMultiEdge_skeleton (C : RG_Matrix G) : forall b C',
  RG_Matrix_setMultiEdge RG_DEBUG C b = Done C' -> skeleton C' = skeleton C.
Proof.
  induction C as [d me mt m dp dm | d me mt m dp dm T IH]
    using RG_Matrix_chain_ind; intros b C'; simpl; unfold_outcome; intros H.
  - trace_call; reflexivity.
  - trace_call; simpl; [f_equal; eapply IH; eassumption | reflexivity].
Qed.

Lemma resize_skeleton (C : RG_Matrix G) : forall r c info C',
  RG_Matrix_resize RG_DEBUG C r c = Done (info, C') -> skeleton C' = skeleton C.
Proof.
  induction C as [d me mt m dp dm | d me mt m dp dm T IH]
    using RG_Matrix_chain_ind; intros r c info C'; simpl; unfold_outcome;
    intros H.
  - trace_call; reflexivity.
  - trace_call; simpl; try reflexivity; f_equal; eapply IH; eassumption.
Qed.

Lemma subassign_skeleton (C : RG_Matrix G) :
  forall Mask accum x rows ni cols nj desc info C',
  RG_Matrix_subassign_UINT64 RG_DEBUG C Mask accum x rows ni cols nj desc
    = Done (info, C') ->
  skeleton C' = skeleton C.
Proof.
  induction C as [d me mt m dp dm | d me mt m dp dm T IH]
    using RG_Matrix_chain_ind;
    intros Mask accum x rows ni cols nj desc info C'; simpl; unfold_outcome;
    intros H.
  - trace_call; reflexivity.
  - trace_call; simpl; try reflexivity; f_equal; eapply IH; eassumption.
Qed.

Lemma run_op_skeleton op (C C' : RG_Matrix G) :
  run_op RG_DEBUG op C = Done C' -> skeleton C' = skeleton C.
Proof.
  destruct op as [| b | r c | Mask accum x rows ni cols nj desc]; simpl.
  - intros [= <-]. by destruct C.
  - apply setMultiEdge_skeleton.
  - unfold_outcome. intros H.
    destruct (RG_Matrix_resize RG_DEBUG C r c) as [[info C1] | |] eqn:E;
      try discriminate.
    injection H as <-. eapply resize_skeleton, E.
  - unfold_outcome. intros H.
    destruct (RG_Matrix_subassign_UINT64 RG_DEBUG C Mask accum x rows ni cols
                nj desc) as [[info C1] | |] eqn:E; try discriminate.
    injection H as <-. eapply subassign_skeleton, E.
Qed.

Lemma run_ops_skeleton ops : forall C C' : RG_Matrix G,
  run_ops RG_DEBUG ops C = Done C' -> skeleton C' = skeleton C.
Proof.
  induction ops as [| op ops IH]; intros C C'; simpl.
  - by intros [= <-].
  - unfold_outcome. intros H.
    destruct (run_op RG_DEBUG op C) as [C1 | |] eqn:E; try discriminate.
    rewrite (IH _ _ H). eapply run_op_skeleton, E.
Qed.

Lemma run_op_dirty op (C C' : RG_Matrix G) :
  run_op RG_DEBUG op C = Done C' -> dirty C = true -> dirty C' = true.
Proof.
  destruct op as [| b | r c | Mask accum x rows ni cols nj desc]; simpl.
  - by intros [= <-].
  - intros H D. apply setMultiEdge_frame in H as (-> & _). exact D.
  - unfold_outcome. intros H D.
    destruct (RG_Matrix_resize RG_DEBUG C r c) as [[info C1] | |] eqn:E;
      try discriminate.
    injection H as <-. apply resize_frame in E as (-> & _). exact D.
  - unfold_outcome. intros H D.
    destruct (RG_Matrix_subassign_UINT64 RG_DEBUG C Mask accum x rows ni cols
                nj desc) as [[info C1] | |] eqn:E; try discriminate.
    injection H as <-.
    apply subassign_frame in E as (_ & _ & _ & _ & _ & ->).
    rewrite D. by destruct (is_success info).
Qed.

Lemma run_ops_dirty ops : forall C C' : RG_Matrix G,
  run_ops RG_DEBUG ops C = Done C' -> dirty C = true -> dirty C' = true.
Proof.
  induction ops as [| op ops IH]; intros C C'; simpl.
  - by intros [= <-].
  - unfold_outcome. intros H D.
    destruct (run_op RG_DEBUG op C) as [C1 | |] eqn:E; try discriminate.
    eapply IH; [exact H |]. eapply run_op_dirty; eassumption.
Qed.

Lemma setMultiEdge_linked (C : RG_Matrix G) b :
  linked C = true ->
  exists C', RG_Matrix_setMultiEdge RG_DEBUG C b = Done C' /\ multi_edge C' = b.
Proof.
  induction C as [d me mt m dp dm | d me mt m dp dm T IH]
    using RG_Matrix_chain_ind; simpl; intros L.
  - apply negb_true_iff in L as ->. unfold_outcome. eauto.
  - apply andb_true_iff in L as [-> L].
    destruct (IH L) as (T' & -> & _). unfold_outcome. eauto.
Qed.

(** The mirror is resized with the dimensions in the order in which the
    matrix itself receives them. *)
Lemma resize_mirror_same_order (C C' T : RG_Matrix G) r c info :
  maintain_transpose C = true ->
  transposed C = Some T ->
  RG_Matrix_resize RG_DEBUG C r c = Done (info, C') ->
  exists T',
    transposed C' = Some T'
    /\ matrix T' = (GrB_Matrix_resize (matrix T) r c).2
    /\ matrix C' = (GrB_Matrix_resize (matrix C) r c).2.
Proof.
  intros Hmt Htr H. pose proof (resize_components _ _ _ _ _ H) as (Hm & _).
  destruct C as [d me mt m dp dm tr]. simpl in Hmt, Htr. subst mt tr.
  simpl in H. unfold_outcome.
  destruct (RG_Matrix_resize RG_DEBUG T r c) as [[i1 T1] | |] eqn:E;
    try discriminate.
  apply resize_components in E as (Em & _).
  trace_call; simpl; eauto.
Qed.

(** What an extraction returns where delta-plus has no entry and the lookup
    in delta-minus succeeds: the code and the value of that lookup. *)
Lemma extractElement_BOOL_delta_minus (A : RG_Matrix G) x i j info1 x1 x2 :
  GrB_Matrix_extractElement_BOOL x (delta_plus A) i j = (info1, x1) ->
  info1 <> GrB_SUCCESS ->
  GrB_Matrix_extractElement_BOOL x1 (delta_minus A) i j = (GrB_SUCCESS, x2) ->
  RG_Matrix_extractElement_BOOL x A i j = (GrB_SUCCESS, x2).
Proof.
  intros H1 Hne H2.
  unfold RG_Matrix_extractElement_BOOL, RG_MATRIX_DELTA_PLUS,
    RG_MATRIX_DELTA_MINUS.
  rewrite H1. unfold is_success at 1. rewrite bool_decide_eq_false_2 by done.
  by rewrite H2.
Qed.

Lemma extractElement_UINT64_delta_minus (A : RG_Matrix G) x i j info1 x1 x2 :
  GrB_Matrix_extractElement_UINT64 x (delta_plus A) i j = (info1, x1) ->
  info1 <> GrB_SUCCESS ->
  GrB_Matrix_extractElement_UINT64 x1 (delta_minus A) i j = (GrB_SUCCESS, x2) ->
  RG_Matrix_extractElement_UINT64 x A i j = (GrB_SUCCESS, x2).
Proof.
  intros H1 Hne H2.
  unfold RG_Matrix_extractElement_UINT64, RG_MATRIX_DELTA_PLUS,
    RG_MATRIX_DELTA_MINUS.
  rewrite H1. unfold is_success at 1. rewrite bool_decide_eq_false_2 by done.
  by rewrite H2.
Qed.

End Operations.

(** ** The claims that hold for every engine *)

Section Claims.
Context {G : GraphBLAS}.

(** C8. In a build that checks its assertions, every call of
    RG_Matrix_subassign_UINT64, whatever its arguments, stops at the
    opening [ASSERT(false)]: no assignment is made, neither in the matrix
    nor in its mirror. *)
Theorem RG_Matrix_subassign_UINT64_disabled
  (C : RG_Matrix G) Mask accum x rows ni cols nj desc :
  RG_Matrix_subassign_UINT64 true C Mask accum x rows ni cols nj desc
    = AssertFailed.
Proof. destruct C. reflexivity. Qed.

(** C9. For a matrix that maintains a transpose mirror, RG_Matrix_setMultiEdge
    returns, and afterwards RG_Matrix_getMultiEdge gives the requested flag
    on the matrix and on its mirror alike. *)
Theorem RG_Matrix_setMultiEdge_mirror RG_DEBUG (C : RG_Matrix G) (b : bool) :
  linked C = true ->
  maintain_transpose C = true ->
  exists C' T',
    RG_Matrix_setMultiEdge RG_DEBUG C b = Done C'
    /\ RG_Matrix_getTranspose C' = Some T'
    /\ RG_Matrix_getMultiEdge C' = b
    /\ RG_Matrix_getMultiEdge T' = b.
Proof.
  destruct C as [d me mt m dp dm [T |]]; simpl; intros L M; subst mt.
  - destruct (setMultiEdge_linked RG_DEBUG T b L) as (T' & E & F).
    exists (Build_RG_Matrix d b true m dp dm (Some T')), T'.
    rewrite E. unfold_outcome. auto.
  - discriminate L.
Qed.

(** C5, as amended.  RG_Matrix_isDirty returns the dirty field;
    RG_Matrix_setDirty sets it; RG_Matrix_subassign_UINT64 sets it when the
    engine's assignment succeeds and leaves it otherwise;
    RG_Matrix_setMultiEdge and RG_Matrix_resize leave it as it was; and no
    run of these operations clears a flag that is set. *)
Theorem dirty_flag_transitions RG_DEBUG (C : RG_Matrix G) :
  RG_Matrix_isDirty C = dirty C
  /\ RG_Matrix_isDirty (RG_Matrix_setDirty C) = true
  /\ (forall b C',
        RG_Matrix_setMultiEdge RG_DEBUG C b = Done C' ->
        RG_Matrix_isDirty C' = RG_Matrix_isDirty C)
  /\ (forall r c info C',
        RG_Matrix_resize RG_DEBUG C r c = Done (info, C') ->
        RG_Matrix_isDirty C' = RG_Matrix_isDirty C)
  /\ (forall Mask accum x rows ni cols nj desc info C',
        RG_Matrix_subassign_UINT64 RG_DEBUG C Mask accum x rows ni cols nj desc
          = Done (info, C') ->
        RG_Matrix_isDirty C'
          = if is_success info then true else RG_Matrix_isDirty C)
  /\ (forall ops C',
        run_ops RG_DEBUG ops C = Done C' ->
        RG_Matrix_isDirty C = true -> RG_Matrix_isDirty C' = true).
Proof.
  unfold RG_Matrix_isDirty. repeat split.
  - intros b C' H. by apply setMultiEdge_frame in H as (-> & _).
  - intros r c info C' H. by apply resize_frame in H as (-> & _).
  - intros Mask accum x rows ni cols nj desc info C' H.
    by apply subassign_frame in H as (_ & _ & _ & _ & _ & ->).
  - intros ops C'. apply run_ops_dirty.
Qed.


(** C4, as amended.  RG_Matrix_resize compares the requested dimensions with
    nothing.  It hands them to the engine's resize of the mirror (when one
    is maintained), of M, of DP and of DM, and when the engine accepts them
    it returns GrB_SUCCESS with the three matrices as the engine resized
    them, whether the request is larger or smaller than the current
    dimensions.  With assertions checked it returns no code other than
    GrB_SUCCESS. *)
Theorem RG_Matrix_resize_forwards RG_DEBUG (C : RG_Matrix G) r c m' dp' dm' tr' :
  (forall info C',
     RG_Matrix_resize true C r c = Done (info, C') -> info = GrB_SUCCESS)
  /\ (GrB_Matrix_resize (matrix C) r c = (GrB_SUCCESS, m') ->
      GrB_Matrix_resize (delta_plus C) r c = (GrB_SUCCESS, dp') ->
      GrB_Matrix_resize (delta_minus C) r c = (GrB_SUCCESS, dm') ->
      (if maintain_transpose C then
         exists T T', transposed C = Some T
           /\ RG_Matrix_resize RG_DEBUG T r c = Done (GrB_SUCCESS, T')
           /\ tr' = Some T'
       else tr' = transposed C) ->
      RG_Matrix_resize RG_DEBUG C r c
        = Done (GrB_SUCCESS,
                Build_RG_Matrix (dirty C) (multi_edge C) (maintain_transpose C)
                  m' dp' dm' tr')).
Proof.
  split.
  - intros info C'. destruct C as [d me mt m dp dm tr]. simpl.
    unfold_outcome. intros H. trace_call; by apply is_success_true.
  - destruct C as [d me mt m dp dm tr]. simpl. intros Hm Hdp Hdm Htr.
    destruct mt.
    + destruct Htr as (T & T' & -> & E & ->). rewrite E.
      unfold_outcome. simpl. by rewrite Hm, Hdp, Hdm.
    + subst tr'. unfold_outcome. simpl. by rewrite Hm, Hdp, Hdm.
Qed.

(** C10. RG_Matrix_nvals adds and subtracts the three counts in unsigned
    64-bit arithmetic.  When the engine reports the counts m, dp and dm,
    the sum m + dp is representable (GraphBLAS entry counts stay far below
    2^63) and dm <= m + dp, neither the addition nor the subtraction wraps,
    and the value returned is the integer m + dp - dm. *)
Theorem RG_Matrix_nvals_no_wrap RG_DEBUG (A : RG_Matrix G) (m dp dm : Z) :
  GrB_Matrix_nvals 0 (matrix A) = (GrB_SUCCESS, m) ->
  GrB_Matrix_nvals 0 (delta_plus A) = (GrB_SUCCESS, dp) ->
  GrB_Matrix_nvals 0 (delta_minus A) = (GrB_SUCCESS, dm) ->
  0 <= m -> 0 <= dp -> 0 <= dm ->
  m + dp < UINT64_MOD ->
  dm <= m + dp ->
  RG_Matrix_nvals RG_DEBUG A = Done (GrB_SUCCESS, m + dp - dm)
  /\ wrap64 (m + dp) = m + dp
  /\ dm <= wrap64 (m + dp)
  /\ 0 <= m + dp - dm < UINT64_MOD.
Proof.
  intros Hm Hdp Hdm ? ? ? Hsum Hle.
  assert (Hw : wrap64 (m + dp) = m + dp)
    by (unfold wrap64; apply Z.mod_small; lia).
  unfold RG_Matrix_nvals, RG_MATRIX_MATRIX, RG_MATRIX_DELTA_PLUS,
    RG_MATRIX_DELTA_MINUS.
  rewrite Hm, Hdp, Hdm. unfold_outcome. simpl. rewrite Hw.
  repeat split; try lia.
  do 2 f_equal. unfold wrap64. apply Z.mod_small. lia.
Qed.

(** C6. RG_Matrix_getTranspose returns the [transposed] link.  For a matrix
    created without transpose maintenance that link is NULL, at creation and
    after any run of operations: the call reports that no transpose is
    maintained by returning no matrix.  For a matrix created with transpose
    maintenance it is the linked mirror, at creation the sibling of swapped
    dimensions, and the mirror itself maintains no transpose. *)
Theorem RG_Matrix_getTranspose_created
  RG_DEBUG type nrows ncols (maintain : bool) ops (C : RG_Matrix G) :
  run_ops RG_DEBUG ops (RG_Matrix_new type nrows ncols maintain) = Done C ->
  RG_Matrix_getTranspose (RG_Matrix_new type nrows ncols maintain)
    = (if maintain then Some (RG_Matrix_new type ncols nrows false) else None)
  /\ maintain_transpose C = maintain
  /\ if maintain then
       exists T, RG_Matrix_getTranspose C = Some T
         /\ transposed C = Some T
         /\ maintain_transpose T = false
         /\ RG_Matrix_getTranspose T = None
     else RG_Matrix_getTranspose C = None.
Proof.
  intros H. apply run_ops_skeleton in H.
  split; [by destruct maintain |].
  unfold RG_Matrix_getTranspose.
  destruct C as [d me mt m dp dm tr]. destruct maintain; simpl in *.
  - destruct tr as [[d1 me1 mt1 m1 dp1 dm1 tr1] |]; simpl in H;
      [| discriminate H].
    destruct tr1; simpl in H.
    + destruct r; discriminate H.
    + injection H as -> ->. eauto 10.
  - destruct tr as [T |]; [| by injection H as ->].
    destruct T; discriminate H.
Qed.

End Claims.

(** ** The reference engine: counting and resizing *)

Section Reference.

Lemma nvals_reference RG_DEBUG (A : RG_Matrix ref_engine) :
  RG_Matrix_nvals RG_DEBUG A
  = Done (GrB_SUCCESS,
          wrap64 (wrap64 (count (matrix A) + count (delta_plus A))
                  - count (delta_minus A))).
Proof. reflexivity. Qed.

Lemma logical_content_lookup (A : RG_Matrix ref_engine) ij :
  logical_content A !! ij = logical_lookup A ij.
Proof.
  unfold logical_content, logical_lookup.
  rewrite lookup_union, lookup_difference.
  destruct (gb_entries (delta_plus A) !! ij) as [v |];
    destruct (gb_entries (delta_minus A) !! ij) as [w |];
    destruct (gb_entries (matrix A) !! ij) as [u |]; reflexivity.
Qed.

Lemma count_nonneg (m : GB_Matrix) : 0 <= count m.
Proof. unfold count. lia. Qed.

Lemma delta_ok_minus_le (A : RG_Matrix ref_engine) :
  delta_ok A -> count (delta_minus A) <= count (matrix A).
Proof.
  intros (Hsub & _ & _). unfold count.
  apply subseteq_size in Hsub. rewrite !size_dom in Hsub. lia.
Qed.

Lemma delta_ok_logical_size (A : RG_Matrix ref_engine) :
  delta_ok A ->
  count (matrix A) + count (delta_plus A) - count (delta_minus A)
  = Z.of_nat (size (logical_content A)).
Proof.
  intros (Hsub & Hdisj & _). unfold count, logical_content.
  rewrite map_size_disj_union.
  2:{ apply map_disjoint_dom_2. rewrite dom_difference_L.
      intros ij Hdp Hm. apply elem_of_difference in Hm as [Hm _].
      exact (Hdisj ij Hdp Hm). }
  rewrite <- (size_dom (D := gset (Z * Z)) (_ ∖ _)), dom_difference_L.
  rewrite (size_difference _ _ Hsub), !size_dom.
  apply subseteq_size in Hsub. rewrite !size_dom in Hsub. lia.
Qed.

Lemma gb_resize_count (m : GB_Matrix) r c :
  count (gb_resize m r c).2 <= count m.
Proof.
  unfold count. simpl.
  pose proof (map_subseteq_size _ _
                (map_filter_subseteq (gb_inside r c) (gb_entries m))).
  lia.
Qed.

Lemma gb_resize_dom_mono (m1 m2 : GB_Matrix) r c :
  dom (gb_entries m1) ⊆ dom (gb_entries m2) ->
  dom (gb_entries (gb_resize m1 r c).2) ⊆ dom (gb_entries (gb_resize m2 r c).2).
Proof.
  intros Hsub ij. simpl. rewrite !elem_of_dom. intros [v Hv].
  apply map_lookup_filter_Some in Hv as [Hv HP].
  assert (Hin : ij ∈ dom (gb_entries m2)) by (apply Hsub, elem_of_dom; eauto).
  apply elem_of_dom in Hin as [w Hw].
  exists w. apply map_lookup_filter_Some. split; [exact Hw | exact HP].
Qed.

Lemma gb_resize_dom_sub (m : GB_Matrix) r c :
  dom (gb_entries (gb_resize m r c).2) ⊆ dom (gb_entries m).
Proof. simpl. apply dom_filter_subseteq. Qed.

Lemma resize_delta_ok RG_DEBUG (A A' : RG_Matrix ref_engine) r c info :
  RG_Matrix_resize RG_DEBUG A r c = Done (info, A') ->
  delta_ok A -> delta_ok A'.
Proof.
  intros H (Hsub & Hdisj & Hcount).
  apply resize_components in H as (Hm & Hdp & Hdm).
  unfold delta_ok. rewrite Hm, Hdp, Hdm. cbn [GrB_Matrix_resize ref_engine].
  split; [by apply gb_resize_dom_mono |]. split.
  - pose proof (gb_resize_dom_sub (delta_plus A) r c).
    pose proof (gb_resize_dom_sub (matrix A) r c). set_solver.
  - pose proof (gb_resize_count (matrix A) r c).
    pose proof (gb_resize_count (delta_plus A) r c).
    eapply Z.le_lt_trans; [apply Z.add_le_mono; eassumption | exact Hcount].
Qed.

Lemma run_op_delta_ok op (A A' : RG_Matrix ref_engine) :
  run_op true op A = Done A' -> delta_ok A -> delta_ok A'.
Proof.
  destruct op as [| b | r c | Mask accum x rows ni cols nj desc]; simpl.
  - intros [= <-]. by destruct A.
  - intros H. apply setMultiEdge_frame in H as (_ & _ & _ & Hm & Hdp & Hdm).
    unfold delta_ok. by rewrite Hm, Hdp, Hdm.
  - unfold_outcome. intros H.
    destruct (RG_Matrix_resize true A r c) as [[info A1] | |] eqn:E;
      try discriminate.
    injection H as <-. eapply resize_delta_ok, E.
  - destruct A. discriminate.
Qed.

Lemma run_ops_delta_ok ops : forall A A' : RG_Matrix ref_engine,
  run_ops true ops A = Done A' -> delta_ok A -> delta_ok A'.
Proof.
  induction ops as [| op ops IH]; intros A A'; simpl.
  - by intros [= <-].
  - unfold_outcome. intros H D.
    destruct (run_op true op A) as [A1 | |] eqn:E; try discriminate.
    eapply IH; [exact H |]. eapply run_op_delta_ok; eassumption.
Qed.

Lemma delta_ok_new type nrows ncols maintain :
  delta_ok (RG_Matrix_new (G := ref_engine) type nrows ncols maintain).
Proof.
  unfold delta_ok, count. simpl. rewrite !dom_empty_L, map_size_empty.
  split; [done |]. split; [| reflexivity].
  intros ij Hij. by apply not_elem_of_empty in Hij.
Qed.








End Reference.

(** ** The claims settled on the reference engine *)

Section ReferenceClaims.

(** C1: the code at a pending deletion.  In [pending_delete_matrix] the
    coordinate (0,0) is present in delta-minus and absent from delta-plus,
    so the logical matrix holds nothing there; yet both extractions return
    GrB_SUCCESS, with the value read from delta-minus, instead of reporting
    that there is no value. *)
Theorem RG_Matrix_extractElement_pending_delete :
  gb_entries (delta_minus pending_delete_matrix) !! (0, 0) = Some 1
  /\ gb_entries (delta_plus pending_delete_matrix) !! (0, 0) = None
  /\ logical_lookup pending_delete_matrix (0, 0) = None
  /\ RG_Matrix_extractElement_BOOL false pending_delete_matrix 0 0
     = (GrB_SUCCESS, true)
  /\ RG_Matrix_extractElement_UINT64 0 pending_delete_matrix 0 0
     = (GrB_SUCCESS, 1).
Proof. repeat split; vm_compute; reflexivity. Qed.

(** In a build that checks its assertions, where the bulk assignment never
    reaches the engine, every run keeps the invariants [delta_ok], and under
    them the count returned is the size of the logical content. *)
Lemma checked_run_keeps_count
  RG_DEBUG (A A' : RG_Matrix ref_engine) (ops : list (RG_op ref_engine)) :
  delta_ok A ->
  run_ops true ops A = Done A' ->
  RG_Matrix_nvals RG_DEBUG A'
    = Done (GrB_SUCCESS,
            count (matrix A') + count (delta_plus A') - count (delta_minus A'))
  /\ count (matrix A') + count (delta_plus A') - count (delta_minus A')
     = Z.of_nat (size (logical_content A'))
  /\ (forall ij, logical_content A' !! ij = logical_lookup A' ij).
Proof.
  intros D H. pose proof (run_ops_delta_ok ops A A' H D) as D'.
  split; [| split].
  - rewrite nvals_reference. do 2 f_equal.
    pose proof (delta_ok_minus_le A' D').
    pose proof (count_nonneg (matrix A')).
    pose proof (count_nonneg (delta_plus A')).
    pose proof (count_nonneg (delta_minus A')).
    destruct D' as (_ & _ & Hlt). unfold wrap64.
    rewrite (Z.mod_small (_ + _)) by lia. apply Z.mod_small. lia.
  - by apply delta_ok_logical_size.
  - apply logical_content_lookup.
Qed.



(** C3: the code at a resize of a mirrored matrix.  [mirrored_matrix] is
    2 x 3 and its mirror 3 x 2.  Resizing it to 4 x 5 makes the mirror 4 x 5
    as well: the recursive call passes the new dimensions on in the same
    order, so the mirror does not get the swapped dimensions 5 x 4. *)
Theorem RG_Matrix_resize_mirror_dimensions :
  exists T C' T',
    RG_Matrix_getTranspose mirrored_matrix = Some T
    /\ (gb_nrows (matrix mirrored_matrix), gb_ncols (matrix mirrored_matrix))
       = (2, 3)
    /\ (gb_nrows (matrix T), gb_ncols (matrix T)) = (3, 2)
    /\ RG_Matrix_resize true mirrored_matrix 4 5 = Done (GrB_SUCCESS, C')
    /\ RG_Matrix_getTranspose C' = Some T'
    /\ (gb_nrows (matrix C'), gb_ncols (matrix C')) = (4, 5)
    /\ (gb_nrows (matrix T'), gb_ncols (matrix T')) = (4, 5)
    /\ (gb_nrows (matrix T'), gb_ncols (matrix T')) <> (5, 4).
Proof.
  do 3 eexists.
  split; [reflexivity |]. split; [reflexivity |]. split; [reflexivity |].
  split; [reflexivity |]. split; [reflexivity |].
  split; [reflexivity |]. split; [reflexivity |]. discriminate.
Qed.

(** C4 fails as stated: [corner_matrix] is 4 x 4, the request 2 x 2 is
    smaller in both dimensions, and RG_Matrix_resize returns GrB_SUCCESS
    with a matrix that is 2 x 2 and has lost the entry at (3,3). *)
Lemma RG_Matrix_resize_shrink_succeeds :
  2 < gb_nrows (matrix corner_matrix)
  /\ 2 < gb_ncols (matrix corner_matrix)
  /\ gb_entries (matrix corner_matrix) !! (3, 3) = Some 1
  /\ exists C',
       RG_Matrix_resize true corner_matrix 2 2 = Done (GrB_SUCCESS, C')
       /\ C' <> corner_matrix
       /\ (gb_nrows (matrix C'), gb_ncols (matrix C')) = (2, 2)
       /\ gb_entries (matrix C') !! (3, 3) = None.
Proof.
  split; [reflexivity |]. split; [reflexivity |]. split; [reflexivity |].
  eexists. split; [reflexivity |].
  split; [discriminate |]. split; reflexivity.
Qed.

(** C5 fails as stated: resizing a clean matrix changes M, DP and DM and
    leaves the dirty flag false. *)
Lemma RG_Matrix_resize_stays_clean :
  RG_Matrix_isDirty corner_matrix = false
  /\ exists C',
       RG_Matrix_resize true corner_matrix 6 6 = Done (GrB_SUCCESS, C')
       /\ matrix C' <> matrix corner_matrix
       /\ delta_plus C' <> delta_plus corner_matrix
       /\ delta_minus C' <> delta_minus corner_matrix
       /\ RG_Matrix_isDirty C' = false.
Proof.
  split; [reflexivity |].
  eexists. split; [reflexivity |].
  repeat split; discriminate.
Qed.


End ReferenceClaims.

(** ** The theorems at concrete matrices *)

Section Witnesses.

Lemma RG_Matrix_setMultiEdge_mirror_witness :
  linked mirrored_matrix = true
  /\ maintain_transpose mirrored_matrix = true
  /\ exists C' T',
       RG_Matrix_setMultiEdge true mirrored_matrix true = Done C'
       /\ RG_Matrix_getTranspose C' = Some T'
       /\ RG_Matrix_getMultiEdge C' = true
       /\ RG_Matrix_getMultiEdge T' = true.
Proof.
  split; [reflexivity |]. split; [reflexivity |].
  apply (RG_Matrix_setMultiEdge_mirror true mirrored_matrix true); reflexivity.
Defined.

Lemma dirty_flag_transitions_witness :
  exists C',
    RG_Matrix_resize true corner_matrix 6 6 = Done (GrB_SUCCESS, C')
    /\ RG_Matrix_isDirty C' = RG_Matrix_isDirty corner_matrix.
Proof.
  eexists. split; [reflexivity |].
  eapply (proj1 (proj2 (proj2 (proj2
            (dirty_flag_transitions true corner_matrix))))).
  reflexivity.
Defined.


Lemma RG_Matrix_resize_forwards_witness :
  RG_Matrix_resize true corner_matrix 2 2
  = Done (GrB_SUCCESS,
          Build_RG_Matrix (G := ref_engine) false false false
            (gb_new GrB_BOOL 2 2) (gb_new GrB_BOOL 2 2) (gb_new GrB_BOOL 2 2)
            None).
Proof.
  apply (proj2 (RG_Matrix_resize_forwards (G := ref_engine) true corner_matrix
                  2 2 (gb_new GrB_BOOL 2 2) (gb_new GrB_BOOL 2 2)
                  (gb_new GrB_BOOL 2 2) None));
    reflexivity.
Defined.

Lemma RG_Matrix_nvals_no_wrap_witness :
  RG_Matrix_nvals true mixed_matrix = Done (GrB_SUCCESS, 2 + 1 - 1)
  /\ wrap64 (2 + 1) = 2 + 1
  /\ 1 <= wrap64 (2 + 1)
  /\ 0 <= 2 + 1 - 1 < UINT64_MOD.
Proof.
  apply (RG_Matrix_nvals_no_wrap (G := ref_engine) true mixed_matrix 2 1 1);
    first [reflexivity | discriminate].
Defined.

Lemma RG_Matrix_getTranspose_created_witness :
  exists C,
    run_ops (G := ref_engine) true [Op_resize 4 4; Op_setMultiEdge true; Op_setDirty]
      (RG_Matrix_new GrB_BOOL 2 3 true) = Done C
    /\ RG_Matrix_getTranspose (RG_Matrix_new (G := ref_engine) GrB_BOOL 2 3 true)
       = Some (RG_Matrix_new GrB_BOOL 3 2 false)
    /\ maintain_transpose C = true
    /\ exists T, RG_Matrix_getTranspose C = Some T
         /\ transposed C = Some T
         /\ maintain_transpose T = false
         /\ RG_Matrix_getTranspose T = None.
Proof.
  eexists. split; [reflexivity |].
  apply (RG_Matrix_getTranspose_created (G := ref_engine) true GrB_BOOL 2 3
           true [Op_resize 4 4; Op_setMultiEdge true; Op_setDirty]).
  reflexivity.
Defined.

Lemma delta_ok_mixed_matrix : delta_ok mixed_matrix.
Proof.
  unfold delta_ok, count, mixed_matrix. simpl.
  split; [| split].
  - apply (bool_decide_unpack _). vm_compute. exact Logic.I.
  - apply (bool_decide_unpack _). vm_compute. exact Logic.I.
  - reflexivity.
Defined.


End Witnesses.

(** ** Further properties of rg_matrix.c, for every engine *)

Section MoreOperations.
Context {G : GraphBLAS}.

Lemma linked_of_skeleton (C : RG_Matrix G) : forall C' : RG_Matrix G,
  skeleton C' = skeleton C -> linked C' = linked C.
Proof.
  induction C as [d me mt m dp dm | d me mt m dp dm T IH]
    using RG_Matrix_chain_ind;
    intros [d' me' mt' m' dp' dm' [T' |]]; simpl; intros H.
  - destruct T'; discriminate H.
  - by injection H as ->.
  - injection H as -> H. by rewrite (IH T' H).
  - destruct T; discriminate H.
Qed.

(** X1. Setting the multi-edge flag twice is the same as setting it once to
    the later value: the flag of the matrix and of every sibling is
    overwritten, and nothing else depends on the earlier call. *)
Theorem RG_Matrix_setMultiEdge_last_wins
  RG_DEBUG (C C1 : RG_Matrix G) (b1 b2 : bool) :
  RG_Matrix_setMultiEdge RG_DEBUG C b1 = Done C1 ->
  RG_Matrix_setMultiEdge RG_DEBUG C1 b2 = RG_Matrix_setMultiEdge RG_DEBUG C b2.
Proof.
  revert C1.
  induction C as [d me mt m dp dm | d me mt m dp dm T IH]
    using RG_Matrix_chain_ind; intros C1; simpl; unfold_outcome; intros H.
  - trace_call; reflexivity.
  - destruct mt.
    + destruct (RG_Matrix_setMultiEdge RG_DEBUG T b1) as [T1 | |] eqn:E;
        try discriminate.
      injection H as <-. simpl. unfold_outcome. by rewrite (IH T1 eq_refl).
    + injection H as <-. reflexivity.
Qed.

(** X2. A matrix whose [maintain_transpose] flag is set while its
    [transposed] link is NULL: RG_Matrix_setMultiEdge and RG_Matrix_resize
    change nothing and do not return.  The recursive call on the NULL link
    fails its [ASSERT(C)] in a checked build and reads through the NULL
    pointer in a build without assertions. *)
Theorem RG_Matrix_null_link_stops (C : RG_Matrix G) (b : bool) (r c : GrB_Index) :
  maintain_transpose C = true ->
  RG_Matrix_getTranspose C = None ->
  RG_Matrix_setMultiEdge true C b = AssertFailed
  /\ RG_Matrix_setMultiEdge false C b = Fault
  /\ RG_Matrix_resize true C r c = AssertFailed
  /\ RG_Matrix_resize false C r c = Fault.
Proof.
  destruct C as [d me mt m dp dm tr]. unfold RG_Matrix_getTranspose. simpl.
  intros -> ->. repeat split; reflexivity.
Qed.

(** X3. RG_Matrix_nvals does not check that delta-minus is covered.  When
    the engine reports more deletions than there are entries in M and DP
    together, the unsigned subtraction wraps and the call still returns
    GrB_SUCCESS, with 2^64 - (dm - (m + dp)). *)
Theorem RG_Matrix_nvals_wraps RG_DEBUG (A : RG_Matrix G) (m dp dm : Z) :
  GrB_Matrix_nvals 0 (matrix A) = (GrB_SUCCESS, m) ->
  GrB_Matrix_nvals 0 (delta_plus A) = (GrB_SUCCESS, dp) ->
  GrB_Matrix_nvals 0 (delta_minus A) = (GrB_SUCCESS, dm) ->
  0 <= m -> 0 <= dp ->
  m + dp < dm -> dm < UINT64_MOD ->
  RG_Matrix_nvals RG_DEBUG A
  = Done (GrB_SUCCESS, UINT64_MOD - (dm - (m + dp))).
Proof.
  intros Hm Hdp Hdm ? ? Hlt Hdm64.
  unfold RG_Matrix_nvals, RG_MATRIX_MATRIX, RG_MATRIX_DELTA_PLUS,
    RG_MATRIX_DELTA_MINUS.
  rewrite Hm, Hdp, Hdm. unfold_outcome. simpl. do 2 f_equal.
  unfold wrap64 in *. unfold UINT64_MOD in *.
  rewrite (Z.mod_small (m + dp)) by lia.
  replace (m + dp - dm) with ((2 ^ 64 - (dm - (m + dp))) + (-1) * 2 ^ 64) by lia.
  rewrite Z.mod_add by lia. apply Z.mod_small. lia.
Qed.

(** X4. When the engine fails to resize M, a checked build stops at the
    assertion that follows.  A build without assertions goes on: it resizes
    DP and DM as well, keeps whatever the engine left in M, and returns the
    status of the last call, the resize of DM. *)
Theorem RG_Matrix_resize_engine_failure
  (C : RG_Matrix G) (r c : GrB_Index) (info : GrB_Info) (m' : GrB_Matrix) :
  maintain_transpose C = false ->
  GrB_Matrix_resize (matrix C) r c = (info, m') ->
  info <> GrB_SUCCESS ->
  RG_Matrix_resize true C r c = AssertFailed
  /\ RG_Matrix_resize false C r c
     = Done ((GrB_Matrix_resize (delta_minus C) r c).1,
             Build_RG_Matrix (dirty C) (multi_edge C) false m'
               (GrB_Matrix_resize (delta_plus C) r c).2
               (GrB_Matrix_resize (delta_minus C) r c).2
               (transposed C)).
Proof.
  destruct C as [d me mt m dp dm tr]. simpl. intros -> Hm Hne.
  unfold_outcome. rewrite Hm.
  assert (is_success info = false) as -> by (by apply bool_decide_eq_false_2).
  split; [reflexivity |].
  destruct (GrB_Matrix_resize dp r c) as [i1 dp'].
  destruct (GrB_Matrix_resize dm r c) as [i2 dm']. simpl.
  by destruct (is_success i1), (is_success i2).
Qed.

(** X5. The flag operations do not touch the content: after
    RG_Matrix_setDirty or RG_Matrix_setMultiEdge every extraction and the
    entry count give what they gave before. *)
Theorem flags_keep_content RG_DEBUG (C C' : RG_Matrix G) (b : bool) :
  C' = RG_Matrix_setDirty C \/ RG_Matrix_setMultiEdge RG_DEBUG C b = Done C' ->
  (forall x i j,
     RG_Matrix_extractElement_BOOL x C' i j
     = RG_Matrix_extractElement_BOOL x C i j)
  /\ (forall x i j,
        RG_Matrix_extractElement_UINT64 x C' i j
        = RG_Matrix_extractElement_UINT64 x C i j)
  /\ (forall dbg, RG_Matrix_nvals dbg C' = RG_Matrix_nvals dbg C).
Proof.
  intros H.
  assert (matrix C' = matrix C /\ delta_plus C' = delta_plus C
          /\ delta_minus C' = delta_minus C) as (Hm & Hdp & Hdm).
  { destruct H as [-> | H]; [by destruct C |].
    apply setMultiEdge_frame in H as (_ & _ & _ & ? & ? & ?). auto. }
  unfold RG_Matrix_extractElement_BOOL, RG_Matrix_extractElement_UINT64,
    RG_Matrix_nvals, RG_MATRIX_MATRIX, RG_MATRIX_DELTA_PLUS,
    RG_MATRIX_DELTA_MINUS.
  rewrite Hm, Hdp, Hdm. auto.
Qed.

(** X6. No run of the operations of rg_matrix.c creates, drops or re-links
    a mirror: the [maintain_transpose] flag, the presence of the
    [transposed] sibling and the link discipline are what they were. *)
Theorem run_ops_keeps_links
  RG_DEBUG (ops : list (RG_op G)) (C C' : RG_Matrix G) :
  run_ops RG_DEBUG ops C = Done C' ->
  maintain_transpose C' = maintain_transpose C
  /\ (is_Some (RG_Matrix_getTranspose C') <-> is_Some (RG_Matrix_getTranspose C))
  /\ linked C' = linked C.
Proof.
  intros H. apply run_ops_skeleton in H.
  split; [| split].
  - destruct C, C'. simpl in H. by injection H.
  - unfold RG_Matrix_getTranspose.
    destruct C as [? ? ? ? ? ? [T |]], C' as [? ? ? ? ? ? [T' |]]; simpl in *;
      try done.
    + destruct T; discriminate H.
    + destruct T'; discriminate H.
  - by apply linked_of_skeleton.
Qed.

(** X7. In a build without assertions the bulk assignment reaches the
    engine: the matrix receives it in its delta-plus with the index lists as
    given, and its mirror with the row and column lists exchanged (and the
    same mask). *)
Theorem RG_Matrix_subassign_UINT64_mirror
  (C C' T : RG_Matrix G) Mask accum x rows ni cols nj desc info :
  RG_Matrix_subassign_UINT64 false C Mask accum x rows ni cols nj desc
    = Done (info, C') ->
  maintain_transpose C = true ->
  RG_Matrix_getTranspose C = Some T ->
  exists T',
    RG_Matrix_getTranspose C' = Some T'
    /\ RG_Matrix_getDeltaPlus C'
       = (GxB_Matrix_subassign_UINT64 (RG_Matrix_getDeltaPlus C)
            Mask accum x rows ni cols nj desc).2
    /\ RG_Matrix_getDeltaPlus T'
       = (GxB_Matrix_subassign_UINT64 (RG_Matrix_getDeltaPlus T)
            Mask accum x cols nj rows ni desc).2.
Proof.
  unfold RG_Matrix_getTranspose, RG_Matrix_getDeltaPlus, RG_MATRIX_DELTA_PLUS.
  intros H Hmt Htr.
  pose proof (subassign_frame _ _ _ _ _ _ _ _ _ _ _ _ H) as (_ & _ & _ & _ & Hdp & _).
  destruct C as [d me mt m dp dm tr]. simpl in Hmt, Htr. subst mt tr.
  simpl in H. unfold_outcome.
  destruct (RG_Matrix_subassign_UINT64 false T Mask accum x cols nj rows ni desc)
    as [[i1 T1] | |] eqn:E; try discriminate.
  apply subassign_frame in E as (_ & _ & _ & _ & Edp & _).
  trace_call; simpl; eauto.
Qed.

End MoreOperations.

(** ** Further properties of rg_matrix.c, on the reference engine *)

Section MoreReference.

Lemma in_bounds_split (A : RG_Matrix ref_engine) i j :
  in_bounds A i j = true ->
  gb_in_range (delta_plus A) i j = true
  /\ gb_in_range (delta_minus A) i j = true
  /\ gb_in_range (matrix A) i j = true.
Proof.
  unfold in_bounds. intros H.
  apply andb_true_iff in H as [H H3]. apply andb_true_iff in H as [H1 H2].
  auto.
Qed.

Lemma resize_reference_total RG_DEBUG (C : RG_Matrix ref_engine) r c :
  linked C = true ->
  exists C', RG_Matrix_resize RG_DEBUG C r c = Done (GrB_SUCCESS, C').
Proof.
  induction C as [d me mt m dp dm | d me mt m dp dm T IH]
    using RG_Matrix_chain_ind; simpl; intros L.
  - apply negb_true_iff in L as ->. unfold_outcome. simpl. eauto.
  - apply andb_true_iff in L as [-> L].
    destruct (IH L) as (T' & ->). unfold_outcome. simpl. eauto.
Qed.

Lemma gb_resize_grow (m : GB_Matrix) r c :
  gb_valid m -> gb_nrows m <= r -> gb_ncols m <= c ->
  gb_entries (gb_resize m r c).2 = gb_entries m.
Proof.
  intros V Hr Hc. simpl. apply map_filter_id. intros [i j] v Hv.
  destruct (V (i, j) v Hv) as [Hi Hj]. unfold gb_inside. simpl in *. lia.
Qed.

Lemma gb_in_range_grow (m : GB_Matrix) r c i j :
  gb_nrows m <= r -> gb_ncols m <= c ->
  gb_in_range m i j = true -> gb_in_range (gb_resize m r c).2 i j = true.
Proof.
  unfold gb_in_range. simpl. intros Hr Hc H.
  repeat (apply andb_true_iff in H as [H ?]).
  repeat (apply andb_true_iff; split); lia.
Qed.

(** X8. Where no deletion is pending, extraction implements the logical
    matrix: for a coordinate inside the bounds that delta-minus does not
    mark, it returns GrB_SUCCESS with the logical value (delta-plus first,
    then the base), or GrB_NO_VALUE with [x] untouched when the logical
    matrix holds nothing there.  The boolean variant returns the value cast
    to bool. *)
Theorem RG_Matrix_extractElement_logical (A : RG_Matrix ref_engine) (i j : GrB_Index) :
  in_bounds A i j = true ->
  gb_entries (delta_minus A) !! (i, j) = None ->
  (forall x,
     RG_Matrix_extractElement_UINT64 x A i j
     = match logical_lookup A (i, j) with
       | Some v => (GrB_SUCCESS, v)
       | None => (GrB_NO_VALUE, x)
       end)
  /\ (forall x,
        RG_Matrix_extractElement_BOOL x A i j
        = match logical_lookup A (i, j) with
          | Some v => (GrB_SUCCESS, negb (v =? 0))
          | None => (GrB_NO_VALUE, x)
          end).
Proof.
  intros B Hdm. apply in_bounds_split in B as (B1 & B2 & B3).
  unfold RG_Matrix_extractElement_UINT64, RG_Matrix_extractElement_BOOL,
    RG_MATRIX_MATRIX, RG_MATRIX_DELTA_PLUS, RG_MATRIX_DELTA_MINUS,
    logical_lookup.
  cbn [GrB_Matrix_extractElement_UINT64 GrB_Matrix_extractElement_BOOL
       ref_engine].
  unfold gb_extractElement_UINT64, gb_extractElement_BOOL.
  unfold GrB_Index, uint64_t in *.
  rewrite B1, B2, B3, Hdm.
  split; intros x;
    destruct (gb_entries (delta_plus A) !! (i, j)) as [v |]; simpl;
    try reflexivity;
    destruct (gb_entries (matrix A) !! (i, j)) as [w |]; reflexivity.
Qed.

(** X9. A coordinate outside the bounds of the three matrices: both
    extractions return GrB_INVALID_INDEX and leave [x] as it was. *)
Theorem RG_Matrix_extractElement_out_of_range
  (A : RG_Matrix ref_engine) (i j : GrB_Index) :
  gb_in_range (delta_plus A) i j = false ->
  gb_in_range (delta_minus A) i j = false ->
  gb_in_range (matrix A) i j = false ->
  (forall x, RG_Matrix_extractElement_UINT64 x A i j = (GrB_INVALID_INDEX, x))
  /\ (forall x, RG_Matrix_extractElement_BOOL x A i j = (GrB_INVALID_INDEX, x)).
Proof.
  intros B1 B2 B3.
  unfold RG_Matrix_extractElement_UINT64, RG_Matrix_extractElement_BOOL,
    RG_MATRIX_MATRIX, RG_MATRIX_DELTA_PLUS, RG_MATRIX_DELTA_MINUS.
  cbn [GrB_Matrix_extractElement_UINT64 GrB_Matrix_extractElement_BOOL
       ref_engine].
  unfold gb_extractElement_UINT64, gb_extractElement_BOOL.
  unfold GrB_Index, uint64_t in *.
  rewrite B1, B2, B3. split; reflexivity.
Qed.

(** X10. The two typed extractions agree: at every matrix and coordinate
    they return the same code, and on GrB_SUCCESS the boolean is the
    truth value of the integer. *)
Theorem RG_Matrix_extractElement_variants_agree
  (A : RG_Matrix ref_engine) (xb : bool) (xu : uint64_t) (i j : GrB_Index) :
  (RG_Matrix_extractElement_BOOL xb A i j).1
  = (RG_Matrix_extractElement_UINT64 xu A i j).1
  /\ ((RG_Matrix_extractElement_UINT64 xu A i j).1 = GrB_SUCCESS ->
      (RG_Matrix_extractElement_BOOL xb A i j).2
      = negb ((RG_Matrix_extractElement_UINT64 xu A i j).2 =? 0)).
Proof.
  unfold RG_Matrix_extractElement_UINT64, RG_Matrix_extractElement_BOOL,
    RG_MATRIX_MATRIX, RG_MATRIX_DELTA_PLUS, RG_MATRIX_DELTA_MINUS.
  cbn [GrB_Matrix_extractElement_UINT64 GrB_Matrix_extractElement_BOOL
       ref_engine].
  unfold gb_extractElement_UINT64, gb_extractElement_BOOL.
  unfold GrB_Index, uint64_t in *.
  destruct (gb_in_range (delta_plus A) i j),
    (gb_in_range (delta_minus A) i j), (gb_in_range (matrix A) i j),
    (gb_entries (delta_plus A) !! (i, j)),
    (gb_entries (delta_minus A) !! (i, j)),
    (gb_entries (matrix A) !! (i, j)); simpl; split; try reflexivity;
    intros [=].
Qed.

(** X11. An extraction that does not return GrB_SUCCESS has not written its
    output: [x] comes back as it went in. *)
Theorem RG_Matrix_extractElement_failure_keeps_x
  (A : RG_Matrix ref_engine) (xb : bool) (xu : uint64_t) (i j : GrB_Index) :
  ((RG_Matrix_extractElement_UINT64 xu A i j).1 <> GrB_SUCCESS ->
   (RG_Matrix_extractElement_UINT64 xu A i j).2 = xu)
  /\ ((RG_Matrix_extractElement_BOOL xb A i j).1 <> GrB_SUCCESS ->
      (RG_Matrix_extractElement_BOOL xb A i j).2 = xb).
Proof.
  unfold RG_Matrix_extractElement_UINT64, RG_Matrix_extractElement_BOOL,
    RG_MATRIX_MATRIX, RG_MATRIX_DELTA_PLUS, RG_MATRIX_DELTA_MINUS.
  cbn [GrB_Matrix_extractElement_UINT64 GrB_Matrix_extractElement_BOOL
       ref_engine].
  unfold gb_extractElement_UINT64, gb_extractElement_BOOL.
  unfold GrB_Index, uint64_t in *.
  destruct (gb_in_range (delta_plus A) i j),
    (gb_in_range (delta_minus A) i j), (gb_in_range (matrix A) i j),
    (gb_entries (delta_plus A) !! (i, j)),
    (gb_entries (delta_minus A) !! (i, j)),
    (gb_entries (matrix A) !! (i, j)); simpl; split; intros H;
    first [reflexivity | by destruct H].
Qed.

(** X12. A resize of a properly linked matrix returns GrB_SUCCESS, and M,
    DP and DM come out with one and the same dimensions, the requested
    ones. *)
Theorem RG_Matrix_resize_dimensions
  RG_DEBUG (A : RG_Matrix ref_engine) (r c : GrB_Index) :
  linked A = true ->
  exists A',
    RG_Matrix_resize RG_DEBUG A r c = Done (GrB_SUCCESS, A')
    /\ (gb_nrows (matrix A'), gb_ncols (matrix A')) = (r, c)
    /\ (gb_nrows (delta_plus A'), gb_ncols (delta_plus A')) = (r, c)
    /\ (gb_nrows (delta_minus A'), gb_ncols (delta_minus A')) = (r, c).
Proof.
  intros L. destruct (resize_reference_total RG_DEBUG A r c L) as (A' & H).
  exists A'. split; [exact H |].
  apply resize_components in H as (-> & -> & ->). auto.
Qed.

(** X13. Growing loses nothing.  When the entries of M, DP and DM lie inside
    their dimensions and the requested dimensions are not smaller, a resize
    leaves the entries of the three matrices, hence the logical content and
    the count, as they were, and every coordinate that was inside the bounds
    extracts as before. *)
Theorem RG_Matrix_resize_grow_keeps_content
  RG_DEBUG (A A' : RG_Matrix ref_engine) (r c : GrB_Index) (info : GrB_Info) :
  gb_valid (matrix A) -> gb_valid (delta_plus A) -> gb_valid (delta_minus A) ->
  gb_nrows (matrix A) <= r -> gb_ncols (matrix A) <= c ->
  gb_nrows (delta_plus A) <= r -> gb_ncols (delta_plus A) <= c ->
  gb_nrows (delta_minus A) <= r -> gb_ncols (delta_minus A) <= c ->
  RG_Matrix_resize RG_DEBUG A r c = Done (info, A') ->
  logical_content A' = logical_content A
  /\ (forall dbg, RG_Matrix_nvals dbg A' = RG_Matrix_nvals dbg A)
  /\ (forall x i j, in_bounds A i j = true ->
        RG_Matrix_extractElement_UINT64 x A' i j
        = RG_Matrix_extractElement_UINT64 x A i j)
  /\ (forall x i j, in_bounds A i j = true ->
        RG_Matrix_extractElement_BOOL x A' i j
        = RG_Matrix_extractElement_BOOL x A i j).
Proof.
  intros Vm Vdp Vdm Hmr Hmc Hpr Hpc Hdr Hdc H.
  apply resize_components in H as (Hm & Hdp & Hdm).
  assert (Em : gb_entries (matrix A') = gb_entries (matrix A))
    by (rewrite Hm; by apply gb_resize_grow).
  assert (Edp : gb_entries (delta_plus A') = gb_entries (delta_plus A))
    by (rewrite Hdp; by apply gb_resize_grow).
  assert (Edm : gb_entries (delta_minus A') = gb_entries (delta_minus A))
    by (rewrite Hdm; by apply gb_resize_grow).
  assert (Rm : forall i j, gb_in_range (matrix A) i j = true ->
                 gb_in_range (matrix A') i j = true)
    by (intros i j; rewrite Hm; by apply gb_in_range_grow).
  assert (Rdp : forall i j, gb_in_range (delta_plus A) i j = true ->
                  gb_in_range (delta_plus A') i j = true)
    by (intros i j; rewrite Hdp; by apply gb_in_range_grow).
  assert (Rdm : forall i j, gb_in_range (delta_minus A) i j = true ->
                  gb_in_range (delta_minus A') i j = true)
    by (intros i j; rewrite Hdm; by apply gb_in_range_grow).
  clear Hm Hdp Hdm.
  split; [| split; [| split]].
  - unfold logical_content. by rewrite Em, Edp, Edm.
  - intros dbg. rewrite !nvals_reference. unfold count.
    by rewrite Em, Edp, Edm.
  - intros x i j B. apply in_bounds_split in B as (B1 & B2 & B3).
    unfold RG_Matrix_extractElement_UINT64, RG_MATRIX_MATRIX,
      RG_MATRIX_DELTA_PLUS, RG_MATRIX_DELTA_MINUS.
    cbn [GrB_Matrix_extractElement_UINT64 ref_engine].
    unfold gb_extractElement_UINT64.
    by rewrite Em, Edp, Edm, B1, B2, B3, (Rm _ _ B3), (Rdp _ _ B1),
      (Rdm _ _ B2).
  - intros x i j B. apply in_bounds_split in B as (B1 & B2 & B3).
    unfold RG_Matrix_extractElement_BOOL, RG_MATRIX_MATRIX,
      RG_MATRIX_DELTA_PLUS, RG_MATRIX_DELTA_MINUS.
    cbn [GrB_Matrix_extractElement_BOOL ref_engine].
    unfold gb_extractElement_BOOL.
    by rewrite Em, Edp, Edm, B1, B2, B3, (Rm _ _ B3), (Rdp _ _ B1),
      (Rdm _ _ B2).
Qed.

End MoreReference.

(** ** The further properties at concrete matrices *)

Section MoreWitnesses.

Lemma RG_Matrix_setMultiEdge_last_wins_witness :
  exists C1,
    RG_Matrix_setMultiEdge true mirrored_matrix true = Done C1
    /\ RG_Matrix_setMultiEdge true C1 false
       = RG_Matrix_setMultiEdge true mirrored_matrix false.
Proof.
  eexists. split; [reflexivity |].
  apply (RG_Matrix_setMultiEdge_last_wins true mirrored_matrix _ true false).
  reflexivity.
Defined.

Lemma RG_Matrix_null_link_stops_witness :
  maintain_transpose unlinked_matrix = true
  /\ RG_Matrix_getTranspose unlinked_matrix = None
  /\ RG_Matrix_setMultiEdge true unlinked_matrix true = AssertFailed
  /\ RG_Matrix_setMultiEdge false unlinked_matrix true = Fault
  /\ RG_Matrix_resize true unlinked_matrix 3 3 = AssertFailed
  /\ RG_Matrix_resize false unlinked_matrix 3 3 = Fault.
Proof.
  split; [reflexivity |]. split; [reflexivity |].
  apply (RG_Matrix_null_link_stops unlinked_matrix true 3 3); reflexivity.
Defined.

Lemma RG_Matrix_nvals_wraps_witness :
  RG_Matrix_nvals true phantom_delete_matrix
  = Done (GrB_SUCCESS, UINT64_MOD - (1 - (0 + 0))).
Proof.
  apply (RG_Matrix_nvals_wraps (G := ref_engine) true phantom_delete_matrix
           0 0 1); first [reflexivity | discriminate].
Defined.

Lemma RG_Matrix_resize_engine_failure_witness :
  RG_Matrix_resize true oom_matrix 3 3 = AssertFailed
  /\ RG_Matrix_resize false oom_matrix 3 3
     = Done (GrB_OUT_OF_MEMORY, oom_matrix).
Proof.
  apply (RG_Matrix_resize_engine_failure (G := oom_engine) oom_matrix 3 3
           GrB_OUT_OF_MEMORY tt); first [reflexivity | discriminate].
Defined.

Lemma flags_keep_content_witness :
  exists C',
    RG_Matrix_setMultiEdge true mixed_matrix true = Done C'
    /\ (forall x i j,
          RG_Matrix_extractElement_BOOL x C' i j
          = RG_Matrix_extractElement_BOOL x mixed_matrix i j)
    /\ (forall x i j,
          RG_Matrix_extractElement_UINT64 x C' i j
          = RG_Matrix_extractElement_UINT64 x mixed_matrix i j)
    /\ (forall dbg, RG_Matrix_nvals dbg C' = RG_Matrix_nvals dbg mixed_matrix).
Proof.
  eexists. split; [reflexivity |].
  apply (flags_keep_content true mixed_matrix _ true).
  right. reflexivity.
Defined.

Lemma run_ops_keeps_links_witness :
  exists C',
    run_ops true [Op_resize 4 5; Op_setMultiEdge true; Op_setDirty]
      mirrored_matrix = Done C'
    /\ maintain_transpose C' = maintain_transpose mirrored_matrix
    /\ (is_Some (RG_Matrix_getTranspose C')
        <-> is_Some (RG_Matrix_getTranspose mirrored_matrix))
    /\ linked C' = linked mirrored_matrix.
Proof.
  eexists. split; [reflexivity |].
  apply (run_ops_keeps_links true
           [Op_resize 4 5; Op_setMultiEdge true; Op_setDirty] mirrored_matrix).
  reflexivity.
Defined.

Lemma RG_Matrix_subassign_UINT64_mirror_witness :
  exists C' T T',
    RG_Matrix_subassign_UINT64 false mirrored_matrix None None 5 [0; 1] 2 [2] 1
      None = Done (GrB_SUCCESS, C')
    /\ maintain_transpose mirrored_matrix = true
    /\ RG_Matrix_getTranspose mirrored_matrix = Some T
    /\ RG_Matrix_getTranspose C' = Some T'
    /\ RG_Matrix_getDeltaPlus C'
       = (gb_subassign_UINT64 (RG_Matrix_getDeltaPlus mirrored_matrix)
            None None 5 [0; 1] 2 [2] 1 None).2
    /\ RG_Matrix_getDeltaPlus T'
       = (gb_subassign_UINT64 (RG_Matrix_getDeltaPlus T)
            None None 5 [2] 1 [0; 1] 2 None).2
    /\ gb_entries (RG_Matrix_getDeltaPlus C') !! (1, 2) = Some 1
    /\ gb_entries (RG_Matrix_getDeltaPlus T') !! (2, 1) = Some 1.
Proof.
  destruct (RG_Matrix_subassign_UINT64_mirror (G := ref_engine)
              mirrored_matrix _ _ None None 5 [0; 1] 2 [2] 1 None GrB_SUCCESS
              eq_refl eq_refl eq_refl) as (T' & H1 & H2 & H3).
  do 2 eexists. exists T'.
  split; [reflexivity |]. split; [reflexivity |]. split; [reflexivity |].
  split; [exact H1 |]. split; [exact H2 |]. split; [exact H3 |].
  injection H1 as <-. split; reflexivity.
Defined.

Lemma RG_Matrix_extractElement_logical_witness :
  in_bounds mixed_matrix 0 1 = true
  /\ gb_entries (delta_minus mixed_matrix) !! (0, 1) = None
  /\ (forall x,
        RG_Matrix_extractElement_UINT64 x mixed_matrix 0 1 = (GrB_SUCCESS, 5))
  /\ (forall x,
        RG_Matrix_extractElement_BOOL x mixed_matrix 0 1 = (GrB_SUCCESS, true)).
Proof.
  split; [reflexivity |]. split; [reflexivity |].
  apply (RG_Matrix_extractElement_logical mixed_matrix 0 1); reflexivity.
Defined.

Lemma RG_Matrix_extractElement_out_of_range_witness :
  (forall x,
     RG_Matrix_extractElement_UINT64 x mixed_matrix 2 0 = (GrB_INVALID_INDEX, x))
  /\ (forall x,
        RG_Matrix_extractElement_BOOL x mixed_matrix 2 0
        = (GrB_INVALID_INDEX, x)).
Proof.
  apply (RG_Matrix_extractElement_out_of_range mixed_matrix 2 0); reflexivity.
Defined.

Lemma RG_Matrix_extractElement_variants_agree_witness :
  (RG_Matrix_extractElement_UINT64 0 mixed_matrix 0 0).1 = GrB_SUCCESS
  /\ (RG_Matrix_extractElement_BOOL false mixed_matrix 0 0).2
     = negb ((RG_Matrix_extractElement_UINT64 0 mixed_matrix 0 0).2 =? 0).
Proof.
  split; [reflexivity |].
  apply (proj2 (RG_Matrix_extractElement_variants_agree mixed_matrix false 0
                  0 0)).
  reflexivity.
Defined.

Lemma RG_Matrix_extractElement_failure_keeps_x_witness :
  (RG_Matrix_extractElement_UINT64 42 mixed_matrix 1 0).1 <> GrB_SUCCESS
  /\ (RG_Matrix_extractElement_UINT64 42 mixed_matrix 1 0).2 = 42.
Proof.
  assert (H : (RG_Matrix_extractElement_UINT64 42 mixed_matrix 1 0).1
              <> GrB_SUCCESS) by discriminate.
  split; [exact H |].
  exact (proj1 (RG_Matrix_extractElement_failure_keeps_x mixed_matrix true 42
                  1 0) H).
Defined.

Lemma RG_Matrix_resize_dimensions_witness :
  linked mirrored_matrix = true
  /\ exists A',
       RG_Matrix_resize true mirrored_matrix 4 5 = Done (GrB_SUCCESS, A')
       /\ (gb_nrows (matrix A'), gb_ncols (matrix A')) = (4, 5)
       /\ (gb_nrows (delta_plus A'), gb_ncols (delta_plus A')) = (4, 5)
       /\ (gb_nrows (delta_minus A'), gb_ncols (delta_minus A')) = (4, 5).
Proof.
  split; [reflexivity |].
  apply (RG_Matrix_resize_dimensions true mirrored_matrix 4 5). reflexivity.
Defined.

Lemma gb_valid_mixed_matrix :
  gb_valid (matrix mixed_matrix) /\ gb_valid (delta_plus mixed_matrix)
  /\ gb_valid (delta_minus mixed_matrix).
Proof.
  split; [| split]; apply (bool_decide_unpack _); vm_compute; exact Logic.I.
Defined.

Lemma RG_Matrix_resize_grow_keeps_content_witness :
  exists A',
    RG_Matrix_resize true mixed_matrix 3 4 = Done (GrB_SUCCESS, A')
    /\ logical_content A' = logical_content mixed_matrix
    /\ (forall dbg, RG_Matrix_nvals dbg A' = RG_Matrix_nvals dbg mixed_matrix)
    /\ (forall x i j, in_bounds mixed_matrix i j = true ->
          RG_Matrix_extractElement_UINT64 x A' i j
          = RG_Matrix_extractElement_UINT64 x mixed_matrix i j)
    /\ (forall x i j, in_bounds mixed_matrix i j = true ->
          RG_Matrix_extractElement_BOOL x A' i j
          = RG_Matrix_extractElement_BOOL x mixed_matrix i j).
Proof.
  destruct gb_valid_mixed_matrix as (Vm & Vdp & Vdm).
  eexists. split; [reflexivity |].
  apply (RG_Matrix_resize_grow_keeps_content true mixed_matrix _ 3 4
           GrB_SUCCESS Vm Vdp Vdm);
    first [discriminate | reflexivity].
Defined.

End MoreWitnesses.

(** ** The searches of the value hash join *)

Section Partition.
Context {A : Type} (P : A -> bool).

Lemma forallb_not_filter (l : list A) :
  forallb (fun y => negb (P y)) l = true -> List.filter P l = [].
Proof.
  induction l as [| x l IH]; simpl; [done |]. intros H.
  apply andb_true_iff in H as [Hx Hl].
  apply negb_true_iff in Hx. rewrite Hx. auto.
Qed.

Lemma partitioned_lookup (l : list A) :
  partitioned P l = true ->
  forall k x, l !! k = Some x ->
    (P x = true <-> Z.of_nat k < passing P l).
Proof.
  unfold passing.
  induction l as [| y l IH]; simpl; intros H k x Hk; [done |].
  destruct (P y) eqn:Py.
  - destruct k as [| k]; simpl in Hk.
    + injection Hk as <-. simpl. split; [lia | done].
    + simpl. rewrite (IH H k x Hk). lia.
  - rewrite (forallb_not_filter l H). simpl.
    assert (P x = false) as ->; [| split; [done | lia]].
    destruct k as [| k]; simpl in Hk; [by injection Hk as <- |].
    apply list_elem_of_lookup_2, list_elem_of_In in Hk.
    rewrite forallb_forall in H. apply negb_true_iff. by apply H.
Qed.

Lemma passing_bounds (l : list A) : 0 <= passing P l <= Z.of_nat (length l).
Proof.
  unfold passing. pose proof (List.filter_length_le P l). lia.
Qed.

Lemma partitioned_split (l : list A) :
  partitioned P l = true ->
  Forall (fun x => P x = true) (take (Z.to_nat (passing P l)) l)
  /\ Forall (fun x => P x = false) (drop (Z.to_nat (passing P l)) l).
Proof.
  unfold passing. rewrite Nat2Z.id.
  induction l as [| y l IH]; simpl; intros H; [by split |].
  destruct (P y) eqn:Py; simpl.
  - destruct (IH H) as [H1 H2]. split; [by constructor | done].
  - rewrite (forallb_not_filter l H). simpl. split; [done |].
    constructor; [done |]. apply Forall_forall. intros x Hx.
    rewrite forallb_forall in H. apply negb_true_iff, H.
    by apply list_elem_of_In.
Qed.

Lemma partitioned_head (l : list A) x :
  partitioned P l = true -> l !! 0%nat = Some x -> P x = true ->
  1 <= passing P l.
Proof.
  intros H Hx Px. apply (partitioned_lookup l H 0%nat x Hx) in Px. lia.
Qed.

End Partition.

Lemma array_get_lookup {A : Type} (array : list A) (pos : Z) :
  0 <= pos -> array_get array pos = array !! Z.to_nat pos.
Proof.
  intros H. unfold array_get. destruct (pos <? 0) eqn:E; [lia | done].
Qed.

Lemma array_get_inside {A : Type} (array : list A) (pos : Z) :
  0 <= pos < Z.of_nat (length array) ->
  exists x, array_get array pos = Some x /\ array !! Z.to_nat pos = Some x.
Proof.
  intros H. rewrite array_get_lookup by lia.
  destruct (lookup_lt_is_Some_2 array (Z.to_nat pos)) as [x Hx]; [lia |].
  eauto.
Qed.

Lemma wrap32_small z : 0 <= z < 2 ^ 32 -> wrap32 z = z.
Proof. apply Z.mod_small. Qed.

Section Searches.
Variable RecordT : Type.
Variable SIValue : Type.
Variable Record_Get : RecordT -> Z -> SIValue.
Variable SIValue_Compare : SIValue -> SIValue -> option Z -> Z * option Z.
Variable COMPARED_NULL : Z.

Abbreviation is_below := (below RecordT SIValue Record_Get SIValue_Compare).
Abbreviation is_not_above :=
  (not_above RecordT SIValue Record_Get SIValue_Compare).
Abbreviation leftmost_loop :=
  (_binarySearchLeftmost_loop RecordT SIValue Record_Get SIValue_Compare).
Abbreviation rightmost_loop :=
  (_binarySearchRightmost_loop RecordT SIValue Record_Get SIValue_Compare).

Lemma midpoint (left right : Z) :
  0 <= left -> left < right -> right <= 2 ^ 31 ->
  let pos := wrap32 (right + left) / 2 in
  left <= pos < right /\ wrap32 (pos + 1) = pos + 1.
Proof.
  intros H0 Hlt Hr pos. subst pos.
  rewrite (wrap32_small (right + left)) by lia.
  assert (left <= (right + left) / 2 < right)
    by (split; [apply Z.div_le_lower_bound | apply Z.div_lt_upper_bound]; lia).
  split; [done |]. apply wrap32_small. lia.
Qed.

Lemma leftmost_loop_partitioned (array : list RecordT) (j : Z) (v : SIValue) :
  partitioned (is_below j v) array = true ->
  Z.of_nat (length array) <= 2 ^ 31 ->
  forall (fuel : nat) (left right : Z),
    0 <= left <= passing (is_below j v) array ->
    passing (is_below j v) array <= right <= Z.of_nat (length array) ->
    right - left <= Z.of_nat fuel ->
    leftmost_loop fuel array j v left right
    = Finished (passing (is_below j v) array, passing (is_below j v) array).
Proof.
  intros Hp Hlen. set (n := passing (is_below j v) array).
  induction fuel as [| fuel IH]; intros left right Hl Hr Hf; simpl.
  - destruct (left <? right) eqn:E; [lia |].
    do 2 f_equal; lia.
  - destruct (left <? right) eqn:E; [| do 2 f_equal; lia].
    apply Z.ltb_lt in E.
    destruct (midpoint left right) as [Hpos Hw]; [lia | lia | lia |].
    set (pos := wrap32 (right + left) / 2) in *.
    destruct (array_get_inside array pos) as (r & -> & Hr'); [lia |].
    pose proof (partitioned_lookup (is_below j v) array Hp _ r Hr') as Hiff.
    rewrite Z2Nat.id in Hiff by lia. fold n in Hiff.
    change ((SIValue_Compare (Record_Get r j) v None).1 <? 0)
      with (is_below j v r).
    destruct (is_below j v r) eqn:Pr.
    + rewrite Hw. apply IH; [| lia | lia].
      assert (pos < n) by (by apply Hiff). lia.
    + apply IH; [lia | | lia].
      assert (~ pos < n) by (intros Hc; apply Hiff in Hc; congruence). lia.
Qed.

Lemma rightmost_loop_partitioned (array : list RecordT) (j : Z) (v : SIValue) :
  partitioned (is_not_above j v) array = true ->
  Z.of_nat (length array) <= 2 ^ 31 ->
  forall (fuel : nat) (left right : Z),
    0 <= left <= passing (is_not_above j v) array ->
    passing (is_not_above j v) array <= right <= Z.of_nat (length array) ->
    right - left <= Z.of_nat fuel ->
    rightmost_loop fuel array j v left right
    = Finished (passing (is_not_above j v) array, passing (is_not_above j v) array).
Proof.
  intros Hp Hlen. set (n := passing (is_not_above j v) array).
  induction fuel as [| fuel IH]; intros left right Hl Hr Hf; simpl.
  - destruct (left <? right) eqn:E; [lia |].
    do 2 f_equal; lia.
  - destruct (left <? right) eqn:E; [| do 2 f_equal; lia].
    apply Z.ltb_lt in E.
    destruct (midpoint left right) as [Hpos Hw]; [lia | lia | lia |].
    set (pos := wrap32 (right + left) / 2) in *.
    destruct (array_get_inside array pos) as (r & -> & Hr'); [lia |].
    pose proof (partitioned_lookup (is_not_above j v) array Hp _ r Hr') as Hiff.
    rewrite Z2Nat.id in Hiff by lia. fold n in Hiff.
    unfold not_above in Hiff.
    destruct ((SIValue_Compare v (Record_Get r j) None).1 <? 0) eqn:Pr;
      simpl in Hiff.
    + apply IH; [lia | | lia].
      assert (~ pos < n) by (intros Hc; apply Hiff in Hc; congruence). lia.
    + rewrite Hw. apply IH; [| lia | lia].
      assert (pos < n) by (by apply Hiff). lia.
Qed.

Abbreviation equals :=
  (equal_to RecordT SIValue Record_Get SIValue_Compare COMPARED_NULL).
Abbreviation leftmost :=
  (_binarySearchLeftmost RecordT SIValue Record_Get SIValue_Compare
     COMPARED_NULL).
Abbreviation rightmost :=
  (_binarySearchRightmost RecordT SIValue Record_Get SIValue_Compare).
Abbreviation set_intersection :=
  (_set_intersection_idx RecordT SIValue Record_Get SIValue_Compare
     COMPARED_NULL).
Abbreviation get_record := (_get_intersecting_record RecordT).

Lemma leftmost_run (fuel : nat) (idx : Z) (array : list RecordT) (j : Z) (v : SIValue) :
  partitioned (is_below j v) array = true ->
  Z.of_nat (length array) <= 2 ^ 31 ->
  (length array <= fuel)%nat ->
  leftmost fuel idx array (Z.of_nat (length array)) j v
  = Finished
      (match array_get array (passing (is_below j v) array) with
       | Some r => equals j v r
       | None => false
       end,
       passing (is_below j v) array).
Proof.
  intros Hp Hlen Hf. unfold _binarySearchLeftmost.
  pose proof (passing_bounds (is_below j v) array) as Hn.
  rewrite (leftmost_loop_partitioned array j v Hp Hlen) by lia.
  cbn [fst snd]. set (n := passing (is_below j v) array) in *.
  destruct (n =? Z.of_nat (length array)) eqn:E.
  - apply Z.eqb_eq in E. rewrite array_get_lookup by lia.
    rewrite (lookup_ge_None_2 array (Z.to_nat n)) by lia. reflexivity.
  - apply Z.eqb_neq in E.
    destruct (array_get_inside array n) as (r & -> & _); [lia |].
    unfold equal_to.
    by destruct (SIValue_Compare (Record_Get r j) v (Some 0)).
Qed.

Lemma rightmost_run (fuel : nat) (idx : Z) (array : list RecordT) (j : Z) (v : SIValue) :
  partitioned (is_not_above j v) array = true ->
  Z.of_nat (length array) <= 2 ^ 31 ->
  (length array <= fuel)%nat ->
  rightmost fuel idx array (Z.of_nat (length array)) j v
  = Finished (true, wrap32 (passing (is_not_above j v) array - 1)).
Proof.
  intros Hp Hlen Hf. unfold _binarySearchRightmost.
  pose proof (passing_bounds (is_not_above j v) array) as Hn.
  by rewrite (rightmost_loop_partitioned array j v Hp Hlen) by lia.
Qed.

Lemma wrap32_window (n l : Z) :
  0 <= n < 2 ^ 32 -> wrap32 (wrap32 (wrap32 (n - 1) + l) - l + 1) = n.
Proof.
  intros Hn. unfold wrap32.
  rewrite Zplus_mod_idemp_l.
  replace ((n - 1 + l) mod 2 ^ 32 - l + 1)
    with ((n - 1 + l) mod 2 ^ 32 + (1 - l)) by lia.
  rewrite Zplus_mod_idemp_l.
  replace (n - 1 + l + (1 - l)) with n by lia.
  by apply Z.mod_small.
Qed.

Lemma set_intersection_run
  RG_DEBUG (fuel : nat) (op : OpValueHashJoin RecordT) (v : SIValue) :
  let array := cached_records RecordT op in
  let j := join_value_rec_idx RecordT op in
  let l := passing (is_below j v) array in
  let n := passing (is_not_above j v) (drop (Z.to_nat l) array) in
  partitioned (is_below j v) array = true ->
  partitioned (is_not_above j v) (drop (Z.to_nat l) array) = true ->
  Z.of_nat (length array) <= 2 ^ 31 ->
  (length array <= fuel)%nat ->
  set_intersection RG_DEBUG fuel op v
  = if match array_get array l with
       | Some r => equals j v r
       | None => false
       end
    then
      if negb (n >? 0) && RG_DEBUG then AssertStop
      else Finished (true, Build_OpValueHashJoin RecordT array j l n)
    else Finished (false, Build_OpValueHashJoin RecordT array j (-1) 0).
Proof.
  intros array j l n Hp Hq Hlen Hf. unfold _set_intersection_idx.
  cbn [cached_records join_value_rec_idx intersect_idx
       number_of_intersections].
  fold array j. unfold array_len.
  rewrite (wrap32_small (Z.of_nat (length array))) by lia.
  rewrite (leftmost_run fuel 0 array j v Hp Hlen Hf). fold l.
  destruct (match array_get array l with
            | Some r => equals j v r
            | None => false
            end); cbn [negb]; [| reflexivity].
  pose proof (passing_bounds (is_below j v) array) as Hl. fold l in Hl.
  assert (Hd : Z.of_nat (length (drop (Z.to_nat l) array))
               = Z.of_nat (length array) - l)
    by (rewrite length_drop; lia).
  rewrite (wrap32_small (Z.of_nat (length array) - l)) by lia.
  rewrite <- Hd.
  rewrite (rightmost_run fuel 0 _ j v Hq) by (rewrite ?length_drop; lia).
  fold n. cbn [negb andb].
  pose proof (passing_bounds (is_not_above j v) (drop (Z.to_nat l) array))
    as Hn. fold n in Hn.
  rewrite wrap32_window by lia. reflexivity.
Qed.

Lemma drain_run (k : nat) : forall (op : OpValueHashJoin RecordT),
  0 <= intersect_idx RecordT op ->
  0 <= number_of_intersections RecordT op < 2 ^ 32 ->
  intersect_idx RecordT op + number_of_intersections RecordT op
    <= Z.of_nat (length (cached_records RecordT op)) ->
  let m := Nat.min k (Z.to_nat (number_of_intersections RecordT op)) in
  drain RecordT k op
  = Finished
      (take m (drop (Z.to_nat (intersect_idx RecordT op))
                 (cached_records RecordT op)),
       Build_OpValueHashJoin RecordT (cached_records RecordT op)
         (join_value_rec_idx RecordT op)
         (intersect_idx RecordT op + Z.of_nat m)
         (number_of_intersections RecordT op - Z.of_nat m)).
Proof.
  induction k as [| k IH]; intros [array j i n]; simpl; intros Hi Hn Hlen.
  - do 3 f_equal; lia.
  - unfold _get_intersecting_record. simpl.
    assert ((i =? -1) = false) as -> by lia. simpl.
    destruct (n =? 0) eqn:E.
    + apply Z.eqb_eq in E. subst n. simpl. by rewrite Z.add_0_r.
    + apply Z.eqb_neq in E.
      destruct (array_get_inside array i) as (cr & -> & Hcr); [lia |].
      rewrite wrap32_small by lia.
      rewrite IH; simpl; [| lia | lia | lia].
      replace (Z.to_nat n) with (S (Z.to_nat (n - 1))) by lia.
      simpl. rewrite (drop_S array cr (Z.to_nat i) Hcr). simpl.
      replace (Z.to_nat (i + 1)) with (S (Z.to_nat i)) by lia.
      do 3 f_equal; lia.
Qed.

(** X14. _binarySearchLeftmost on an array sorted on the join value, of at
    most 2^31 records, with a bound of iterations of at least its length:
    the loop ends, [*idx] is the number of records below [v], which is the
    position of the first record that is not below it, and the function
    returns true exactly when that position holds a record that compares
    equal to [v] without a null being involved.  On an empty array, or when
    every record is below [v], it returns false with [*idx] the length. *)
Theorem binarySearchLeftmost_partitioned
  (fuel : nat) (idx : Z) (array : list RecordT) (j : Z) (v : SIValue) :
  partitioned (is_below j v) array = true ->
  Z.of_nat (length array) <= 2 ^ 31 ->
  (length array <= fuel)%nat ->
  let n := passing (is_below j v) array in
  leftmost fuel idx array (Z.of_nat (length array)) j v
  = Finished
      (match array_get array n with
       | Some r => equals j v r
       | None => false
       end, n)
  /\ 0 <= n <= Z.of_nat (length array)
  /\ Forall (fun r => is_below j v r = true) (take (Z.to_nat n) array)
  /\ Forall (fun r => is_below j v r = false) (drop (Z.to_nat n) array).
Proof.
  intros Hp Hlen Hf n. split; [by apply leftmost_run |].
  split; [apply passing_bounds |]. by apply partitioned_split.
Qed.

(** X15. _binarySearchRightmost under the same conditions always returns
    true, with [*idx] one less than the number of records that are not above
    [v], in unsigned 32-bit arithmetic: the position of the last such record,
    and 2^32 - 1 when there is none (so also on an empty array). *)
Theorem binarySearchRightmost_partitioned
  (fuel : nat) (idx : Z) (array : list RecordT) (j : Z) (v : SIValue) :
  partitioned (is_not_above j v) array = true ->
  Z.of_nat (length array) <= 2 ^ 31 ->
  (length array <= fuel)%nat ->
  let n := passing (is_not_above j v) array in
  rightmost fuel idx array (Z.of_nat (length array)) j v
  = Finished (true, if n =? 0 then 2 ^ 32 - 1 else n - 1)
  /\ 0 <= n <= Z.of_nat (length array)
  /\ Forall (fun r => is_not_above j v r = true) (take (Z.to_nat n) array)
  /\ Forall (fun r => is_not_above j v r = false) (drop (Z.to_nat n) array).
Proof.
  intros Hp Hlen Hf n.
  pose proof (passing_bounds (is_not_above j v) array) as Hn. fold n in Hn.
  split; [| split; [done | by apply partitioned_split]].
  rewrite (rightmost_run fuel idx array j v Hp Hlen Hf). fold n.
  do 2 f_equal. destruct (n =? 0) eqn:E.
  - apply Z.eqb_eq in E. by rewrite E.
  - apply Z.eqb_neq in E. apply wrap32_small. lia.
Qed.

(** X16. _set_intersection_idx on cached records sorted on the join value.
    When the leftmost search finds no record equal to [v] it returns false
    with intersect_idx = -1 and number_of_intersections = 0.  When it finds
    one at position l, it returns true with intersect_idx = l and
    number_of_intersections the number of records from l on that are not
    above [v]; that number is at least one as soon as the record found is
    itself not above [v], and were it zero a checked build would stop at
    the closing assertion. *)
Theorem set_intersection_idx_sorted
  RG_DEBUG (fuel : nat) (op : OpValueHashJoin RecordT) (v : SIValue) :
  let array := cached_records RecordT op in
  let j := join_value_rec_idx RecordT op in
  let l := passing (is_below j v) array in
  let n := passing (is_not_above j v) (drop (Z.to_nat l) array) in
  partitioned (is_below j v) array = true ->
  partitioned (is_not_above j v) (drop (Z.to_nat l) array) = true ->
  Z.of_nat (length array) <= 2 ^ 31 ->
  (length array <= fuel)%nat ->
  set_intersection RG_DEBUG fuel op v
  = (if match array_get array l with
        | Some r => equals j v r
        | None => false
        end
     then
       if negb (n >? 0) && RG_DEBUG then AssertStop
       else Finished (true, Build_OpValueHashJoin RecordT array j l n)
     else Finished (false, Build_OpValueHashJoin RecordT array j (-1) 0))
  /\ (forall r, array_get array l = Some r -> is_not_above j v r = true ->
        1 <= n).
Proof.
  intros array j l n Hp Hq Hlen Hf.
  split; [by apply set_intersection_run |].
  intros r Hr Hna.
  pose proof (passing_bounds (is_below j v) array) as Hl. fold l in Hl.
  rewrite array_get_lookup in Hr by lia.
  apply (partitioned_head (is_not_above j v) _ r Hq); [| done].
  rewrite lookup_drop. by rewrite Nat.add_0_r.
Qed.

(** X17. Successive calls of _get_intersecting_record hand out the cached
    records from position intersect_idx on, one per call, at most
    number_of_intersections of them: after k calls the records handed out
    are the first min(k, number_of_intersections) of that run,
    intersect_idx has advanced and number_of_intersections has dropped by
    as many, and no read falls outside the array. *)
Theorem get_intersecting_record_drain (k : nat) (op : OpValueHashJoin RecordT) :
  0 <= intersect_idx RecordT op ->
  0 <= number_of_intersections RecordT op < 2 ^ 32 ->
  intersect_idx RecordT op + number_of_intersections RecordT op
    <= Z.of_nat (length (cached_records RecordT op)) ->
  let m := Nat.min k (Z.to_nat (number_of_intersections RecordT op)) in
  drain RecordT k op
  = Finished
      (take m (drop (Z.to_nat (intersect_idx RecordT op))
                 (cached_records RecordT op)),
       Build_OpValueHashJoin RecordT (cached_records RecordT op)
         (join_value_rec_idx RecordT op)
         (intersect_idx RecordT op + Z.of_nat m)
         (number_of_intersections RecordT op - Z.of_nat m)).
Proof. apply drain_run. Qed.

(** X18. The window of a join value.  After _set_intersection_idx has
    returned true on cached records sorted on the join value, the calls of
    _get_intersecting_record hand out exactly the records of one contiguous
    window and then NULL: every record before the window is below [v],
    every record in it is neither below nor above [v], and every record
    after it is above [v]. *)
Theorem hash_join_window
  RG_DEBUG (fuel : nat) (op op' : OpValueHashJoin RecordT) (v : SIValue) :
  let array := cached_records RecordT op in
  let j := join_value_rec_idx RecordT op in
  let l := passing (is_below j v) array in
  let n := passing (is_not_above j v) (drop (Z.to_nat l) array) in
  partitioned (is_below j v) array = true ->
  partitioned (is_not_above j v) (drop (Z.to_nat l) array) = true ->
  Z.of_nat (length array) <= 2 ^ 31 ->
  (length array <= fuel)%nat ->
  set_intersection RG_DEBUG fuel op v = Finished (true, op') ->
  (forall k, (Z.to_nat n <= k)%nat ->
     exists op'',
       drain RecordT k op'
       = Finished (take (Z.to_nat n) (drop (Z.to_nat l) array), op'')
       /\ get_record op'' = Finished (None, op''))
  /\ array
     = take (Z.to_nat l) array
       ++ take (Z.to_nat n) (drop (Z.to_nat l) array)
       ++ drop (Z.to_nat n) (drop (Z.to_nat l) array)
  /\ Forall (fun r => is_below j v r = true) (take (Z.to_nat l) array)
  /\ Forall (fun r => is_below j v r = false /\ is_not_above j v r = true)
       (take (Z.to_nat n) (drop (Z.to_nat l) array))
  /\ Forall (fun r => is_below j v r = false /\ is_not_above j v r = false)
       (drop (Z.to_nat n) (drop (Z.to_nat l) array)).
Proof.
  intros array j l n Hp Hq Hlen Hf H.
  rewrite (set_intersection_run RG_DEBUG fuel op v Hp Hq Hlen Hf) in H.
  fold array j l n in H.
  pose proof (passing_bounds (is_below j v) array) as Hl. fold l in Hl.
  pose proof (passing_bounds (is_not_above j v) (drop (Z.to_nat l) array))
    as Hn. fold n in Hn. rewrite length_drop in Hn.
  destruct (partitioned_split (is_below j v) array Hp) as [B1 B2].
  destruct (partitioned_split (is_not_above j v) _ Hq) as [N1 N2].
  fold l in B1, B2. fold n in N1, N2.
  assert (op' = Build_OpValueHashJoin RecordT array j l n) as ->.
  { destruct (match array_get array l with
              | Some r => equals j v r
              | None => false
              end); [| discriminate H].
    destruct (negb (n >? 0) && RG_DEBUG); [discriminate H |].
    by injection H. }
  split; [| split; [| split; [| split]]].
  - intros k Hk. eexists. split.
    + rewrite drain_run; cbn [cached_records join_value_rec_idx intersect_idx
                              number_of_intersections]; [| lia | lia | lia].
      rewrite Nat.min_r by lia. reflexivity.
    + unfold _get_intersecting_record.
      cbn [cached_records join_value_rec_idx intersect_idx
           number_of_intersections].
      rewrite Z2Nat.id by lia. rewrite Z.sub_diag.
      by rewrite orb_true_r.
  - by rewrite !take_drop.
  - exact B1.
  - apply Forall_and. split; [by apply Forall_take | exact N1].
  - apply Forall_and. split; [by apply Forall_drop | exact N2].
Qed.

End Searches.

(** ** The searches at the sample records *)

Section SearchWitnesses.

Lemma binarySearchLeftmost_partitioned_witness :
  partitioned (below _ _ sample_get sample_compare 0 (Some 3)) sample_records
  = true
  /\ _binarySearchLeftmost _ _ sample_get sample_compare sample_COMPARED_NULL
       4 0 sample_records 4 0 (Some 3)
     = Finished (true, 1).
Proof.
  split; [reflexivity |].
  exact (proj1 (binarySearchLeftmost_partitioned _ _ sample_get sample_compare
                  sample_COMPARED_NULL 4 0 sample_records 0 (Some 3)
                  eq_refl ltac:(discriminate) ltac:(reflexivity))).
Defined.

Lemma binarySearchRightmost_partitioned_witness :
  partitioned (not_above _ _ sample_get sample_compare 0 (Some 3))
    sample_records = true
  /\ _binarySearchRightmost _ _ sample_get sample_compare 4 0 sample_records 4
       0 (Some 3)
     = Finished (true, 2)
  /\ _binarySearchRightmost _ _ sample_get sample_compare 0 0 [] 0 0 (Some 3)
     = Finished (true, 2 ^ 32 - 1).
Proof.
  split; [reflexivity |]. split.
  - exact (proj1 (binarySearchRightmost_partitioned _ _ sample_get
                    sample_compare 4 0 sample_records 0 (Some 3)
                    eq_refl ltac:(discriminate) ltac:(reflexivity))).
  - exact (proj1 (binarySearchRightmost_partitioned _ _ sample_get
                    sample_compare 0 0 [] 0 (Some 3)
                    eq_refl ltac:(discriminate) ltac:(reflexivity))).
Defined.

Lemma set_intersection_idx_sorted_witness :
  _set_intersection_idx _ _ sample_get sample_compare sample_COMPARED_NULL
    true 4 sample_op (Some 3)
  = Finished (true, Build_OpValueHashJoin _ sample_records 0 1 2)
  /\ _set_intersection_idx _ _ sample_get sample_compare sample_COMPARED_NULL
       true 4 sample_op (Some 4)
     = Finished (false, Build_OpValueHashJoin _ sample_records 0 (-1) 0).
Proof.
  split.
  - exact (proj1 (set_intersection_idx_sorted _ _ sample_get sample_compare
                    sample_COMPARED_NULL true 4 sample_op (Some 3)
                    eq_refl eq_refl ltac:(discriminate) ltac:(reflexivity))).
  - exact (proj1 (set_intersection_idx_sorted _ _ sample_get sample_compare
                    sample_COMPARED_NULL true 4 sample_op (Some 4)
                    eq_refl eq_refl ltac:(discriminate) ltac:(reflexivity))).
Defined.

Lemma get_intersecting_record_drain_witness :
  drain _ 5 (Build_OpValueHashJoin _ sample_records 0 1 2)
  = Finished ([[Some 3]; [Some 3]],
              Build_OpValueHashJoin _ sample_records 0 3 0).
Proof.
  exact (get_intersecting_record_drain _ 5
           (Build_OpValueHashJoin _ sample_records 0 1 2)
           ltac:(discriminate) ltac:(split; [discriminate | reflexivity])
           ltac:(discriminate)).
Defined.

Lemma hash_join_window_witness :
  exists op',
    _set_intersection_idx _ _ sample_get sample_compare sample_COMPARED_NULL
      true 4 sample_op (Some 3) = Finished (true, op')
    /\ (exists op'',
          drain _ 2 op' = Finished ([[Some 3]; [Some 3]], op'')
          /\ _get_intersecting_record _ op'' = Finished (None, op''))
    /\ sample_records = [[Some 1]] ++ [[Some 3]; [Some 3]] ++ [[Some 5]].
Proof.
  eexists. split; [reflexivity |].
  destruct (hash_join_window _ _ sample_get sample_compare
              sample_COMPARED_NULL true 4 sample_op _ (Some 3)
              eq_refl eq_refl ltac:(discriminate) ltac:(reflexivity) eq_refl)
    as (H1 & H2 & _).
  split; [exact (H1 2%nat ltac:(reflexivity)) | exact H2].
Defined.

End SearchWitnesses.
